(** * Unused Code Remover (css.py): a shallow embedding and its properties

    The program scans CSS and JavaScript text with Python regular
    expressions, decides which selectors and identifiers are referenced in
    a corpus, and deletes lines of the files.  This development embeds

    - the [str] methods the program calls ([split], [join], [strip],
      [find], [count], [in], [startswith], slicing),
    - the fragment of Python's [re] the program's patterns use, as a
      backtracking matcher that lists its results in priority order,
    - the methods of [UnusedCodeRemover], the file system and the change
      log as an explicit state,

    and then states the properties of the specification over them.

    Text is a list of characters.  A character is a code point below 256
    (the ASCII range and its Latin-1 extension); the classes [\s], [\w]
    and the case folding follow Python's Unicode tables on that range. *)

From Stdlib Require Import List ListSet Ascii String Bool Arith NArith ZArith Lia.
From Stdlib Require Import DecimalString.
Import ListNotations.

Set Implicit Arguments.

Local Open Scope list_scope.

(** ** Text *)

Module Text.

Definition str : Type := list ascii.

Definition txt (s : string) : str := list_ascii_of_string s.

Definition code (c : ascii) : N := N_of_ascii c.

Definition between (lo hi : N) (c : ascii) : bool :=
  (N.leb lo (code c) && N.leb (code c) hi)%bool.

Definition newline : ascii := ascii_of_N 10.

(** [str.isspace] and the class [\s] of a [str] pattern. *)
Definition is_space (c : ascii) : bool :=
  (between 9 13 c || between 28 32 c || N.eqb (code c) 133
   || N.eqb (code c) 160)%bool.

Definition is_digit (c : ascii) : bool := between 48 57 c.

Definition is_upper_ascii (c : ascii) : bool := between 65 90 c.

Definition is_lower_ascii (c : ascii) : bool := between 97 122 c.

(** The class [\w] of a [str] pattern: [str.isalnum] or the underscore. *)
Definition is_word (c : ascii) : bool :=
  (is_digit c || is_upper_ascii c || is_lower_ascii c || N.eqb (code c) 95
   || N.eqb (code c) 170 || between 178 179 c || N.eqb (code c) 181
   || between 185 186 c || between 188 190 c
   || between 192 214 c || between 216 246 c || between 248 255 c)%bool.

(** [str.lower] on one character. *)
Definition lower (c : ascii) : ascii :=
  if (is_upper_ascii c || between 192 214 c || between 216 222 c)%bool
  then ascii_of_N (code c + 32) else c.

(** [s.startswith(p)] *)
Fixpoint startswith (p s : str) : bool :=
  match p, s with
  | [], _ => true
  | _ :: _, [] => false
  | a :: p', b :: s' => (Ascii.eqb a b && startswith p' s')%bool
  end.

(** [needle in hay] *)
Fixpoint contains (needle hay : str) : bool :=
  (startswith needle hay
   || match hay with
      | [] => false
      | _ :: hay' => contains needle hay'
      end)%bool.

(** [c in s] for a one-character [c] *)
Definition has_char (c : ascii) (s : str) : bool :=
  existsb (Ascii.eqb c) s.

(** [s.count(c)] for a one-character [c] *)
Definition count (c : ascii) (s : str) : nat :=
  List.length (filter (Ascii.eqb c) s).

(** [s.find(c)] for a one-character [c]: the first index, or -1. *)
Fixpoint find (c : ascii) (s : str) : Z :=
  match s with
  | [] => (-1)%Z
  | x :: s' =>
      if Ascii.eqb c x then 0%Z
      else let k := find c s' in
           if (k <? 0)%Z then (-1)%Z else (k + 1)%Z
  end.

(** [s[:k]]; a negative [k] counts from the end. *)
Definition slice_to (s : str) (k : Z) : str :=
  if (k <? 0)%Z
  then firstn (Z.to_nat (Z.of_nat (List.length s) + k)) s
  else firstn (Z.to_nat k) s.

(** [s.split(sep)] for a one-character [sep]: never the empty list. *)
Fixpoint split (sep : ascii) (s : str) : list str :=
  match s with
  | [] => [[]]
  | c :: s' =>
      if Ascii.eqb c sep then [] :: split sep s'
      else match split sep s' with
           | piece :: rest => (c :: piece) :: rest
           | [] => [[c]]
           end
  end.

(** [sep.join(pieces)] for a one-character [sep] *)
Fixpoint join (sep : ascii) (pieces : list str) : str :=
  match pieces with
  | [] => []
  | [piece] => piece
  | piece :: rest => piece ++ sep :: join sep rest
  end.

Fixpoint lstrip (s : str) : str :=
  match s with
  | [] => []
  | c :: s' => if is_space c then lstrip s' else s
  end.

Definition rstrip (s : str) : str := rev (lstrip (rev s)).

(** [s.strip()] *)
Definition strip (s : str) : str := rstrip (lstrip s).

(** [len(s)], an unbounded Python integer. *)
Definition len (s : str) : Z := Z.of_nat (List.length s).

End Text.

Import Text.

(** ** Regular expressions

    The fragment of [re] that the program's patterns are written in.
    Matching runs on a cursor: the character before the position (none at
    the start of the text) and the rest of the text.  [ends] lists the
    cursors where a match that starts at the given cursor can stop, in the
    order in which the backtracking matcher of [re] reaches them, so the
    head of the list is the match [re] reports. *)

Module Re.

Record flags : Type := Flags {
  ignorecase : bool;
  multiline : bool;
  dotall : bool
}.

Definition no_flags : flags := Flags false false false.
Definition IGNORECASE : flags := Flags true false false.
Definition MULTILINE : flags := Flags false true false.
Definition DOTALL : flags := Flags false false true.

Inductive regex : Type :=
| Eps                                (* the empty pattern *)
| Chr (c : ascii)                    (* a literal character *)
| Cls (p : ascii -> bool)            (* a class: [...], [^...], \s *)
| Dot                                (* . *)
| Cat (a b : regex)                  (* ab *)
| Alt (a b : regex)                  (* a|b *)
| Star (greedy : bool) (a : regex)   (* a* and a*? *)
| Bnd                                (* \b *)
| Bol                                (* ^ *)
| Eol                                (* $ *)
| NotAhead (a : regex).              (* (?!a) *)

(** [a+] *)
Definition Plus (a : regex) : regex := Cat a (Star true a).

(** A literal word.  [re.escape(w)] is a pattern that matches exactly the
    characters of [w], which is what [Lit w] is. *)
Fixpoint Lit (w : str) : regex :=
  match w with
  | [] => Eps
  | c :: w' => Cat (Chr c) (Lit w')
  end.

Definition escape (w : str) : regex := Lit w.

Definition cursor : Type := (option ascii * str)%type.

Definition remaining (p : cursor) : nat := List.length (snd p).

Definition word_before (p : cursor) : bool :=
  match fst p with Some c => is_word c | None => false end.

Definition word_after (p : cursor) : bool :=
  match snd p with c :: _ => is_word c | [] => false end.

(** Does the literal [c] of the pattern match the character [x]? *)
Definition chr_matches (f : flags) (c x : ascii) : bool :=
  if ignorecase f then Ascii.eqb (lower c) (lower x) else Ascii.eqb c x.

Definition dot_matches (f : flags) (x : ascii) : bool :=
  (dotall f || negb (Ascii.eqb x newline))%bool.

Definition at_bol (f : flags) (p : cursor) : bool :=
  match fst p with
  | None => true
  | Some c => (multiline f && Ascii.eqb c newline)%bool
  end.

Definition at_eol (f : flags) (p : cursor) : bool :=
  match snd p with
  | [] => true
  | c :: rest =>
      (Ascii.eqb c newline
       && (multiline f || match rest with [] => true | _ => false end))%bool
  end.

Definition eat (ok : ascii -> bool) (p : cursor) : list cursor :=
  match snd p with
  | x :: rest => if ok x then [(Some x, rest)] else []
  | [] => []
  end.

(** The iterations of a star.  An iteration that consumes nothing is not
    repeated; every star of the program is over a one-character class.
    [fuel] is the length of the rest of the text, and each further
    iteration starts on a shorter rest. *)
Fixpoint star_ends (greedy : bool) (step : cursor -> list cursor)
    (fuel : nat) (p : cursor) : list cursor :=
  match fuel with
  | O => [p]
  | S fuel' =>
      let more :=
        flat_map (fun q => if remaining q <? remaining p
                           then star_ends greedy step fuel' q else [])
                 (step p) in
      if greedy then more ++ [p] else p :: more
  end.

Fixpoint ends (f : flags) (r : regex) (p : cursor) {struct r} : list cursor :=
  match r with
  | Eps => [p]
  | Chr c => eat (chr_matches f c) p
  | Cls ok => eat ok p
  | Dot => eat (dot_matches f) p
  | Cat a b => flat_map (ends f b) (ends f a p)
  | Alt a b => ends f a p ++ ends f b p
  | Star greedy a => star_ends greedy (ends f a) (remaining p) p
  | Bnd => if xorb (word_before p) (word_after p) then [p] else []
  | Bol => if at_bol f p then [p] else []
  | Eol => if at_eol f p then [p] else []
  | NotAhead a => match ends f a p with [] => [p] | _ :: _ => [] end
  end.

(** The match at a cursor, if any: where it stops. *)
Definition match_at (f : flags) (r : regex) (p : cursor) : option cursor :=
  hd_error (ends f r p).

(** The leftmost match at or after a cursor: the text skipped before it,
    the cursor where it starts and the cursor where it stops. *)
Fixpoint scan (f : flags) (r : regex) (prev : option ascii) (s : str)
    : option (str * cursor * cursor) :=
  match match_at f r (prev, s) with
  | Some q => Some ([], (prev, s), q)
  | None =>
      match s with
      | [] => None
      | c :: s' =>
          match scan f r (Some c) s' with
          | Some (skipped, p, q) => Some (c :: skipped, p, q)
          | None => None
          end
      end
  end.

(** [re.search(r, s, f)] as a truth value *)
Definition search (f : flags) (r : regex) (s : str) : bool :=
  match scan f r None s with Some _ => true | None => false end.

(** The text between two cursors of one text. *)
Definition matched (p q : cursor) : str :=
  firstn (remaining p - remaining q) (snd p).

(** [re.sub(r, '', s, flags=f)]: every match, left to right and not
    overlapping, is deleted.  After a match that consumed nothing the scan
    moves one character on, keeping that character. *)
Fixpoint sub_empty_from (fuel : nat) (f : flags) (r : regex)
    (prev : option ascii) (s : str) : str :=
  match fuel with
  | O => s
  | S fuel' =>
      match scan f r prev s with
      | None => s
      | Some (skipped, p, q) =>
          if remaining q <? remaining p
          then skipped ++ sub_empty_from fuel' f r (fst q) (snd q)
          else match snd q with
               | [] => skipped
               | c :: rest =>
                   skipped ++ c :: sub_empty_from fuel' f r (Some c) rest
               end
      end
  end.

Definition sub_empty (f : flags) (r : regex) (s : str) : str :=
  sub_empty_from (S (List.length s)) f r None s.

(** A pattern [pre(grp)] whose only group is its last part.  The match at
    a cursor: where the group starts and where it stops, the first such
    pair in backtracking order. *)
Definition match_group_at (f : flags) (pre grp : regex) (p : cursor)
    : option (cursor * cursor) :=
  hd_error (flat_map (fun m => map (pair m) (ends f grp m)) (ends f pre p)).

Fixpoint scan_group (f : flags) (pre grp : regex) (prev : option ascii)
    (s : str) : option (cursor * cursor) :=
  match match_group_at f pre grp (prev, s) with
  | Some mq => Some mq
  | None =>
      match s with
      | [] => None
      | c :: s' => scan_group f pre grp (Some c) s'
      end
  end.

(** [re.compile(pre(grp)).findall(s)]: the text of the group in every
    match, left to right and not overlapping.  The patterns the program
    passes start with a literal, so a match always consumes text; the scan
    resumes where the match stopped. *)
Fixpoint findall_group_from (fuel : nat) (f : flags) (pre grp : regex)
    (prev : option ascii) (s : str) : list str :=
  match fuel with
  | O => []
  | S fuel' =>
      match scan_group f pre grp prev s with
      | None => []
      | Some (m, q) =>
          matched m q ::
          (if remaining q <? List.length s
           then findall_group_from fuel' f pre grp (fst q) (snd q)
           else [])
      end
  end.

Definition findall_group (f : flags) (pre grp : regex) (s : str) : list str :=
  findall_group_from (S (List.length s)) f pre grp None s.

End Re.

Import Re.

(** ** The program *)

Module Remover.

Definition path : Type := str.

Definition str_dec : forall a b : str, {a = b} + {a <> b} :=
  list_eq_dec ascii_dec.

(** A Python [set] of strings: a list without repetitions, in the order
    in which the set is iterated. *)
Definition strset : Type := list str.

Definition set_update (s : strset) (items : list str) : strset :=
  fold_left (fun acc x => ListSet.set_add str_dec x acc) items s.

Definition set_minus (a b : strset) : strset := ListSet.set_diff str_dec a b.

Definition is_empty {A : Type} (l : list A) : bool :=
  match l with [] => true | _ :: _ => false end.

Definition dquote : ascii := ascii_of_N 34.
Definition squote : ascii := "'"%char.

Definition quote_chr (c : ascii) : bool :=
  (Ascii.eqb c dquote || Ascii.eqb c squote)%bool.

Definition not_quote_chr (c : ascii) : bool := negb (quote_chr c).

Definition space : regex := Cls is_space.

(** *** Patterns of [__init__] *)

(** [[a-zA-Z_-]] *)
Definition css_name_start (c : ascii) : bool :=
  (is_lower_ascii c || is_upper_ascii c || Ascii.eqb c "_"
   || Ascii.eqb c "-")%bool.

(** [[a-zA-Z0-9_-]] *)
Definition css_name_char (c : ascii) : bool :=
  (is_lower_ascii c || is_upper_ascii c || is_digit c || Ascii.eqb c "_"
   || Ascii.eqb c "-")%bool.

(** [[a-zA-Z_$]] *)
Definition js_name_start (c : ascii) : bool :=
  (is_lower_ascii c || is_upper_ascii c || Ascii.eqb c "_"
   || Ascii.eqb c "$")%bool.

(** [[a-zA-Z0-9_$]] *)
Definition js_name_char (c : ascii) : bool :=
  (is_lower_ascii c || is_upper_ascii c || is_digit c || Ascii.eqb c "_"
   || Ascii.eqb c "$")%bool.

Definition css_name : regex := Cat (Cls css_name_start) (Star true (Cls css_name_char)).

Definition js_name : regex := Cat (Cls js_name_start) (Star true (Cls js_name_char)).

(** [css_class_pattern] (line 25): a dot, then the group, a CSS name.
    This is the part before the group. *)
Definition css_class_pattern : regex := Chr ".".

(** [css_id_pattern] (line 26): a hash sign, then the group, a CSS name.
    This is the part before the group. *)
Definition css_id_pattern : regex := Chr "#".

(** [js_function_pattern] (line 27): the word function, one or more [\s],
    then the group, a JS name.  This is the part before the group. *)
Definition js_function_pattern : regex := Cat (Lit (txt "function")) (Plus space).

(** [js_var_pattern] (line 28): var, let or const, one or more [\s], then
    the group, a JS name.  This is the part before the group. *)
Definition js_var_pattern : regex :=
  Cat (Alt (Lit (txt "var")) (Alt (Lit (txt "let")) (Lit (txt "const"))))
      (Plus space).

(** The block comment pattern (lines 65 and 83): slash star, a lazy run
    of any characters, star slash. *)
Definition block_comment : regex :=
  Cat (Lit (txt "/*")) (Cat (Star false Dot) (Lit (txt "*/"))).

(** The line comment pattern (line 82): two slashes, a lazy run of any
    characters, the end of a line. *)
Definition line_comment : regex :=
  Cat (Lit (txt "//")) (Cat (Star false Dot) Eol).

(** *** [get_css_selectors] *)
Definition get_css_selectors (css_content : str) : strset :=
  let selectors : strset := [] in
  let css_content := sub_empty DOTALL block_comment css_content in
  let classes := findall_group no_flags css_class_pattern css_name css_content in
  let selectors := set_update selectors (map (fun cls => "."%char :: cls) classes) in
  let ids := findall_group no_flags css_id_pattern css_name css_content in
  let selectors := set_update selectors (map (fun id_ => "#"%char :: id_) ids) in
  selectors.

(** *** [get_js_identifiers] *)
Definition get_js_identifiers (js_content : str) : strset :=
  let identifiers : strset := [] in
  let js_content := sub_empty MULTILINE line_comment js_content in
  let js_content := sub_empty DOTALL block_comment js_content in
  let functions := findall_group no_flags js_function_pattern js_name js_content in
  let identifiers := set_update identifiers functions in
  let variables := findall_group no_flags js_var_pattern js_name js_content in
  let identifiers := set_update identifiers variables in
  identifiers.

(** *** [find_references_in_content] *)

(** The first two class patterns (lines 105 and 106): the attribute name
    ([class] or [className]), [\s*], an equals sign, [\s*], a quote of
    either kind, a run of characters that are not quotes, [\b], the
    escaped name, [\b], a run of characters that are not quotes, a
    quote. *)
Definition attribute_pattern (attr : str) (name : str) : regex :=
  Cat (Lit attr)
  (Cat (Star true space)
  (Cat (Chr "=")
  (Cat (Star true space)
  (Cat (Cls quote_chr)
  (Cat (Star true (Cls not_quote_chr))
  (Cat Bnd
  (Cat (escape name)
  (Cat Bnd
  (Cat (Star true (Cls not_quote_chr))
       (Cls quote_chr)))))))))).

(** The third class pattern (line 107): [classList.], one of add, remove,
    toggle and contains, [\s*], an opening parenthesis, [\s*], a quote,
    the escaped name, a quote. *)
Definition classlist_pattern (name : str) : regex :=
  Cat (Lit (txt "classList."))
  (Cat (Alt (Lit (txt "add"))
       (Alt (Lit (txt "remove"))
       (Alt (Lit (txt "toggle")) (Lit (txt "contains")))))
  (Cat (Star true space)
  (Cat (Chr "(")
  (Cat (Star true space)
  (Cat (Cls quote_chr)
  (Cat (escape name)
       (Cls quote_chr))))))).

Definition class_patterns (class_name : str) : list regex :=
  [ attribute_pattern (txt "class") class_name;
    attribute_pattern (txt "className") class_name;
    classlist_pattern class_name ].

(** The id patterns (lines 118 to 120): a head, a quote, the escaped name
    (after a hash sign in the third), a quote. *)
Definition quoted_pattern (head : regex) (name : str) : regex :=
  Cat head (Cat (Cls quote_chr) (Cat (escape name) (Cls quote_chr))).

Definition id_patterns (id_name : str) : list regex :=
  [ quoted_pattern
      (Cat (Lit (txt "id")) (Cat (Star true space)
        (Cat (Chr "=") (Star true space)))) id_name;
    quoted_pattern
      (Cat (Lit (txt "getElementById")) (Cat (Star true space)
        (Cat (Chr "(") (Star true space)))) id_name;
    Cat (Lit (txt "querySelector")) (Cat (Star true space)
      (Cat (Chr "(") (Cat (Star true space)
        (Cat (Cls quote_chr) (Cat (Chr "#")
          (Cat (escape id_name) (Cls quote_chr))))))) ].

(** The loop [for pattern in patterns: if re.search(...): add; break].
    The result says whether a pattern matched and how many searches were
    made before the loop was left. *)
Fixpoint try_patterns (f : flags) (patterns : list regex) (content : str)
    : bool * nat :=
  match patterns with
  | [] => (false, O)
  | pattern :: rest =>
      if search f pattern content then (true, 1)
      else let (found, tried) := try_patterns f rest content in
           (found, S tried)
  end.

(** The body of the loop over the selectors: does a pattern for this
    selector match?  ([content_lower] of line 98 is never read.) *)
Definition selector_referenced (content : str) (selector : str) : bool :=
  if startswith (txt ".") selector then
    let class_name := skipn 1 selector in
    fst (try_patterns IGNORECASE (class_patterns class_name) content)
  else if startswith (txt "#") selector then
    let id_name := skipn 1 selector in
    fst (try_patterns IGNORECASE (id_patterns id_name) content)
  else false.

Definition find_references_in_content (content : str) (selectors : strset)
    : strset :=
  fold_left
    (fun referenced selector =>
       if selector_referenced content selector
       then ListSet.set_add str_dec selector referenced
       else referenced)
    selectors [].

(** *** [find_js_references] *)

(** The call pattern (line 136): [\b], the escaped name, [\s*], an opening
    parenthesis. *)
Definition call_pattern (identifier : str) : regex :=
  Cat Bnd (Cat (escape identifier) (Cat (Star true space) (Chr "("))).

Definition assign_chr (c : ascii) : bool :=
  (Ascii.eqb c "=" || Ascii.eqb c ":")%bool.

(** The usage pattern (line 137): [\b], the escaped name, [\b], and no
    [\s*] followed by an equals sign or a colon ahead. *)
Definition usage_pattern (identifier : str) : regex :=
  Cat Bnd (Cat (escape identifier)
    (Cat Bnd (NotAhead (Cat (Star true space) (Cls assign_chr))))).

Definition js_patterns (identifier : str) : list regex :=
  [ call_pattern identifier; usage_pattern identifier ].

Definition identifier_referenced (content : str) (identifier : str) : bool :=
  fst (try_patterns no_flags (js_patterns identifier) content).

Definition find_js_references (content : str) (identifiers : strset)
    : strset :=
  fold_left
    (fun referenced identifier =>
       if identifier_referenced content identifier
       then ListSet.set_add str_dec identifier referenced
       else referenced)
    identifiers [].

(** *** [remove_unused_css_rules] *)

(** [line.count('{') - line.count('}')] *)
Definition balance (line : str) : Z :=
  (Z.of_nat (count "{" line) - Z.of_nat (count "}" line))%Z.

(** The pattern of line 173: a colon, a greedy run of any characters but
    the newline, the end of the text. *)
Definition colon_tail : regex := Cat (Chr ":") (Cat (Star true Dot) Eol).

(** [re.sub(r':.*$', '', sel.strip())] *)
Definition clean_selector (sel : str) : str :=
  sub_empty no_flags colon_tail (strip sel).

(** [any(unused in text for unused in unused_selectors)] *)
Definition covered (unused_selectors : strset) (text : str) : bool :=
  existsb (fun unused => contains unused text) unused_selectors.

(** The loop over [current_rule_selectors] that sets [has_used_selector]
    and leaves at the first selector that no unused name covers. *)
Fixpoint has_used_selector (unused_selectors : strset) (sels : list str)
    : bool :=
  match sels with
  | [] => false
  | sel :: rest =>
      if negb (covered unused_selectors (clean_selector sel)) then true
      else has_used_selector unused_selectors rest
  end.

Record css_state : Type := CssState {
  new_lines : list str;
  in_rule : bool;
  brace_count : Z;
  current_rule_selectors : list str;
  rule_start_line : nat
}.

Definition css_init : css_state := CssState [] false 0 [] 0.

(** One turn of the loop [for i, line in enumerate(lines)].  ([stripped]
    of line 159 is never read, and [rule_start_line] is only written.) *)
Definition css_step (unused_selectors : strset) (st : css_state)
    (item : nat * str) : css_state :=
  let (i, line) := item in
  if (negb (in_rule st) && has_char "{" line)%bool then
    let selector_part := slice_to line (find "{" line) in
    let sels := map strip (split "," selector_part) in
    let depth := balance line in
    if has_used_selector unused_selectors sels then
      CssState (new_lines st ++ [line]) true depth sels i
    else if (depth =? 0)%Z then
      CssState (new_lines st) false depth sels i
    else
      CssState (new_lines st) true depth sels i
  else if in_rule st then
    let depth := (brace_count st + balance line)%Z in
    if (depth =? 0)%Z then
      if has_used_selector unused_selectors (current_rule_selectors st) then
        CssState (new_lines st ++ [line]) false depth
                 (current_rule_selectors st) (rule_start_line st)
      else
        CssState (new_lines st) false depth
                 (current_rule_selectors st) (rule_start_line st)
    else if covered unused_selectors line then
      CssState (new_lines st) true depth
               (current_rule_selectors st) (rule_start_line st)
    else
      CssState (new_lines st ++ [line]) true depth
               (current_rule_selectors st) (rule_start_line st)
  else
    CssState (new_lines st ++ [line]) (in_rule st) (brace_count st)
             (current_rule_selectors st) (rule_start_line st).

Definition enumerate {A : Type} (l : list A) : list (nat * A) :=
  combine (seq 0 (List.length l)) l.

Definition css_loop (unused_selectors : strset) (lines : list str)
    : css_state :=
  fold_left (css_step unused_selectors) (enumerate lines) css_init.

Definition remove_unused_css_rules (css_content : str)
    (unused_selectors : strset) : str :=
  if is_empty unused_selectors then css_content
  else
    let lines := split newline css_content in
    join newline (new_lines (css_loop unused_selectors lines)).

(** *** [remove_unused_js_code] *)

Definition keyword : regex :=
  Alt (Lit (txt "var")) (Alt (Lit (txt "let")) (Lit (txt "const"))).

Definition decl_end_chr (c : ascii) : bool :=
  (Ascii.eqb c "=" || Ascii.eqb c ";")%bool.

(** The pattern of line 222: the start of the line, [\s*], the word
    function, one or more [\s], the escaped name, [\s*], an opening
    parenthesis. *)
Definition function_decl_pattern (unused : str) : regex :=
  Cat Bol (Cat (Star true space) (Cat (Lit (txt "function"))
    (Cat (Plus space) (Cat (escape unused)
      (Cat (Star true space) (Chr "(")))))).

(** The pattern of line 226: the start of the line, [\s*], var, let or
    const, one or more [\s], the escaped name, [\s*], an equals sign or a
    semicolon. *)
Definition var_decl_pattern (unused : str) : regex :=
  Cat Bol (Cat (Star true space) (Cat keyword
    (Cat (Plus space) (Cat (escape unused)
      (Cat (Star true space) (Cls decl_end_chr)))))).

(** The loop [for unused in unused_identifiers] with its two [break]s:
    the value of [should_remove] when the loop is left. *)
Fixpoint should_remove (unused_identifiers : strset) (line : str) : bool :=
  match unused_identifiers with
  | [] => false
  | unused :: rest =>
      if search no_flags (function_decl_pattern unused) line then true
      else if search no_flags (var_decl_pattern unused) line then true
      else should_remove rest line
  end.

Definition js_step (unused_identifiers : strset) (new_lines : list str)
    (line : str) : list str :=
  if should_remove unused_identifiers line then new_lines
  else new_lines ++ [line].

Definition remove_unused_js_code (js_content : str)
    (unused_identifiers : strset) : str :=
  if is_empty unused_identifiers then js_content
  else
    let lines := split newline js_content in
    join newline (fold_left (js_step unused_identifiers) lines []).

(** *** The run: files, change log, [process_files] *)

Record change : Type := Change {
  timestamp : str;
  file : path;
  type_ : str;
  unused_items : list str;
  original_size : Z;
  new_size : Z;
  bytes_saved : Z
}.

(** The object [self] and the world around it.  [files] gives each path
    the text that the first successful decoding of the file yields, or
    nothing when no encoding decodes it.  [writes] lists the calls of
    [f.write] in order.  [now] is what the clock shows at its k-th
    reading. *)
Record state : Type := State {
  html_files : list path;
  js_files : list path;
  css_files : list path;
  changes_log : list change;
  files : path -> option str;
  writable : path -> bool;
  writes : list (path * str);
  now : nat -> str;
  clock_reads : nat
}.

(** [read_file_safe] *)
Definition read_file_safe (st : state) (file_path : path) : str :=
  match files st file_path with
  | Some text => text
  | None => []
  end.

(** [log_changes] *)
Definition log_changes (st : state) (file_path : path) (file_type : str)
    (unused : strset) (original new : Z) : state :=
  let change_entry :=
    Change (now st (clock_reads st)) file_path file_type unused
           original new (original - new)%Z in
  State (html_files st) (js_files st) (css_files st)
        (changes_log st ++ [change_entry])
        (files st) (writable st) (writes st) (now st) (S (clock_reads st)).

(** [with open(p, 'w') as f: f.write(text)] under [try]: a failure to
    open the file leaves the file as it was. *)
Definition write_file (st : state) (file_path : path) (text : str) : state :=
  if writable st file_path then
    State (html_files st) (js_files st) (css_files st) (changes_log st)
          (fun p => if str_dec p file_path then Some text else files st p)
          (writable st) (writes st ++ [(file_path, text)])
          (now st) (clock_reads st)
  else st.

(** A Python [dict] from paths to texts. *)
Definition dict : Type := list (path * str).

Fixpoint dict_set (key : path) (value : str) (d : dict) : dict :=
  match d with
  | [] => [(key, value)]
  | (k, v) :: d' =>
      if str_dec k key then (k, value) :: d' else (k, v) :: dict_set key value d'
  end.

Fixpoint dict_get (key : path) (d : dict) : option str :=
  match d with
  | [] => None
  | (k, v) :: d' => if str_dec k key then Some v else dict_get key d'
  end.

(** The first loop of [process_files], over the HTML files. *)
Definition read_html (st : state) : str :=
  fold_left (fun all_content html_file =>
               all_content ++ newline :: read_file_safe st html_file)
            (html_files st) [].

(** The second loop, over the JS files. *)
Definition read_js (st : state) (all_content : str) : dict * str :=
  fold_left (fun acc js_file =>
               let content := read_file_safe st js_file in
               (dict_set js_file content (fst acc),
                snd acc ++ newline :: content))
            (js_files st) ([], all_content).

(** One turn of the loop over the CSS files. *)
Definition process_css_file (all_content : str) (st : state)
    (css_file : path) : state :=
  let css_content := read_file_safe st css_file in
  if is_empty css_content then st
  else
    let selectors := get_css_selectors css_content in
    let referenced_selectors :=
      find_references_in_content all_content selectors in
    let unused_selectors := set_minus selectors referenced_selectors in
    if is_empty unused_selectors then st
    else
      let new_content := remove_unused_css_rules css_content unused_selectors in
      let st := log_changes st css_file (txt "CSS") unused_selectors
                            (len css_content) (len new_content) in
      write_file st css_file new_content.

(** One turn of the loop over the JS files.  [js_contents[js_file]] cannot
    fail: the second loop stored every path of [js_files]. *)
Definition process_js_file (all_content : str) (js_contents : dict)
    (st : state) (js_file : path) : state :=
  match dict_get js_file js_contents with
  | None => st
  | Some js_content =>
      if is_empty js_content then st
      else
        let identifiers := get_js_identifiers js_content in
        let referenced_identifiers :=
          find_js_references all_content identifiers in
        let unused_identifiers := set_minus identifiers referenced_identifiers in
        if is_empty unused_identifiers then st
        else
          let new_content :=
            remove_unused_js_code js_content unused_identifiers in
          let st := log_changes st js_file (txt "JavaScript")
                                unused_identifiers
                                (len js_content) (len new_content) in
          write_file st js_file new_content
  end.

(** [process_files] *)
Definition process_files (st : state) : state :=
  let all_content := read_html st in
  let (js_contents, all_content) := read_js st all_content in
  let st := fold_left (process_css_file all_content) (css_files st) st in
  fold_left (process_js_file all_content js_contents) (js_files st) st.

End Remover.

Import Remover.

(** ** Views of the loops

    The loops of the removers, read as functions of the lines alone.  The
    lemmas of the second part connect them to the loops above. *)

Module View.

(** What the CSS loop remembers between two lines: [in_rule],
    [brace_count] and [current_rule_selectors]. *)
Definition mode : Type := (bool * Z * list str)%type.

Definition mode_of (st : css_state) : mode :=
  (in_rule st, brace_count st, current_rule_selectors st).

Definition outside : mode := (false, 0%Z, []).

Definition rule_selectors (line : str) : list str :=
  map strip (split "," (slice_to line (find "{" line))).

(** The lines that one turn of the CSS loop appends and the mode it
    leaves. *)
Definition css_line (unused_selectors : strset) (m : mode) (line : str)
    : list str * mode :=
  let '(inside, depth, sels) := m in
  if (negb inside && has_char "{" line)%bool then
    let sels' := rule_selectors line in
    let depth' := balance line in
    if has_used_selector unused_selectors sels' then ([line], (true, depth', sels'))
    else if (depth' =? 0)%Z then ([], (false, depth', sels'))
    else ([], (true, depth', sels'))
  else if inside then
    let depth' := (depth + balance line)%Z in
    if (depth' =? 0)%Z then
      (if has_used_selector unused_selectors sels then [line] else [],
       (false, depth', sels))
    else if covered unused_selectors line then ([], (true, depth', sels))
    else ([line], (true, depth', sels))
  else ([line], m).

Fixpoint css_emit (unused_selectors : strset) (m : mode) (lines : list str)
    : list str :=
  match lines with
  | [] => []
  | line :: rest =>
      fst (css_line unused_selectors m line)
      ++ css_emit unused_selectors (snd (css_line unused_selectors m line)) rest
  end.

Fixpoint css_mode_after (unused_selectors : strset) (m : mode)
    (lines : list str) : mode :=
  match lines with
  | [] => m
  | line :: rest =>
      css_mode_after unused_selectors
        (snd (css_line unused_selectors m line)) rest
  end.

(** The brace depth stays away from zero on every line of a rule body. *)
Fixpoint stays_open (depth : Z) (body : list str) : bool :=
  match body with
  | [] => true
  | line :: rest =>
      (negb (depth + balance line =? 0)%Z
       && stays_open (depth + balance line) rest)%bool
  end.

Fixpoint depth_after (depth : Z) (body : list str) : Z :=
  match body with
  | [] => depth
  | line :: rest => depth_after (depth + balance line) rest
  end.

(** The test of the JS loop, without the order of the tries. *)
Definition is_unused_declaration (unused_identifiers : strset) (line : str)
    : bool :=
  existsb (fun name =>
             (search no_flags (function_decl_pattern name) line
              || search no_flags (var_decl_pattern name) line)%bool)
          unused_identifiers.

(** [kept] is [lines] with some lines left out. *)
Inductive subseq {A : Type} : list A -> list A -> Prop :=
| subseq_nil : subseq [] []
| subseq_keep x kept lines : subseq kept lines -> subseq (x :: kept) (x :: lines)
| subseq_drop x kept lines : subseq kept lines -> subseq kept (x :: lines).

Definition no_newline (line : str) : Prop := has_char newline line = false.

(** The corpus that [process_files] searches. *)
Definition corpus (st : state) : str := snd (read_js st (read_html st)).

Definition css_unused (st : state) (css_file : path) : strset :=
  let selectors := get_css_selectors (read_file_safe st css_file) in
  set_minus selectors (find_references_in_content (corpus st) selectors).

Definition js_unused (st : state) (js_file : path) : strset :=
  let identifiers := get_js_identifiers (read_file_safe st js_file) in
  set_minus identifiers (find_js_references (corpus st) identifiers).

(** The remover that [process_files] applies to a file of a given type. *)
Definition remover_of (file_type : str) : str -> strset -> str :=
  if str_dec file_type (txt "CSS") then remove_unused_css_rules
  else remove_unused_js_code.

(** The two calls that [process_files] makes for a file with unused
    names: [log_changes], then the write. *)
Definition edit (st : state) (file_path : path) (file_type : str)
    (unused : strset) (before after : str) : state :=
  write_file (log_changes st file_path file_type unused (len before) (len after))
             file_path after.

(** A record whose sizes are the lengths of the text [before] and of what
    the remover for its type makes of it. *)
Definition accounted (before : str) (r : change) : Prop :=
  let after := remover_of (type_ r) before (unused_items r) in
  original_size r = len before
  /\ new_size r = len after
  /\ bytes_saved r = (len before - len after)%Z.

(** The object after [__init__] and [scan_files] on a directory that
    holds the given HTML, JS and CSS files, all of them writable, with an
    empty change log and a clock that shows the empty text. *)
Definition fresh (html js css : list (path * str)) : state :=
  State (map fst html) (map fst js) (map fst css) []
        (fun file_path => dict_get file_path (html ++ js ++ css))
        (fun _ => true) [] (fun _ => []) 0.

End View.

Import View.

(** ** The rest of the program: [scan_files], [save_log], [run] *)

Module Driver.

(** One path that [root_dir.rglob] yields, with what [pathlib] says about
    it: [is_file()] and [suffix]. *)
Record entry : Type := Entry {
  entry_path : path;
  entry_is_file : bool;
  entry_suffix : str
}.

(** [s.lower()] *)
Definition lower_str (s : str) : str := map lower s.

Definition with_files (st : state) (html js css : list path) : state :=
  State html js css (changes_log st) (files st) (writable st) (writes st)
        (now st) (clock_reads st).

(** One turn of the loop of [scan_files]. *)
Definition scan_step (st : state) (file_path : entry) : state :=
  if entry_is_file file_path then
    let suffix := lower_str (entry_suffix file_path) in
    if str_dec suffix (txt ".js") then
      with_files st (html_files st) (js_files st ++ [entry_path file_path])
                 (css_files st)
    else if str_dec suffix (txt ".css") then
      with_files st (html_files st) (js_files st)
                 (css_files st ++ [entry_path file_path])
    else if in_dec str_dec suffix [txt ".html"; txt ".htm"] then
      with_files st (html_files st ++ [entry_path file_path]) (js_files st)
                 (css_files st)
    else st
  else st.

(** [scan_files], on what [rglob] yields. *)
Definition scan_files (listing : list entry) (st : state) : state :=
  fold_left scan_step listing st.

(** [str(n)] for an integer. *)
Definition show_int (n : Z) : str := txt (NilZero.string_of_int (Z.to_int n)).

Definition line (s : str) : str := s ++ [newline].

(** One turn of the loop of [save_log]: the text written so far and
    [total_bytes_saved]. *)
Definition save_entry (acc : str * Z) (change : change) : str * Z :=
  let (out, total_bytes_saved) := acc in
  let out := out ++ line (txt "File: " ++ file change) in
  let out := out ++ line (txt "Type: " ++ type_ change) in
  let out := out ++ line (txt "Timestamp: " ++ timestamp change) in
  let out := out ++ line (txt "Original size: "
                          ++ show_int (original_size change) ++ txt " bytes") in
  let out := out ++ line (txt "New size: "
                          ++ show_int (new_size change) ++ txt " bytes") in
  let out := out ++ line (txt "Bytes saved: " ++ show_int (bytes_saved change)) in
  let out := out ++ line (txt "Removed items:") in
  let out := fold_left (fun out item => out ++ line (txt "  - " ++ item))
                       (unused_items change) out in
  let out := out ++ line (repeat "-"%char 40) ++ [newline] in
  (out, (total_bytes_saved + bytes_saved change)%Z).

Definition save_header (generated : str) : str :=
  line (txt "UNUSED CODE REMOVAL LOG")
  ++ line (repeat "="%char 50)
  ++ line (txt "Generated: " ++ generated) ++ [newline].

(** [save_log]: the text written to the log file.  [generated] is what
    [strftime] makes of the clock. *)
Definition save_log (generated : str) (st : state) : str :=
  let (out, total_bytes_saved) :=
    fold_left save_entry (changes_log st) (save_header generated, 0%Z) in
  out ++ line (txt "SUMMARY")
      ++ line (txt "Total files processed: "
               ++ show_int (Z.of_nat (List.length (changes_log st))))
      ++ line (txt "Total bytes saved: " ++ show_int total_bytes_saved).

(** What [run] meets outside the object: whether the root exists, what
    [rglob] yields, the answer typed at the prompt, the time for the
    report. *)
Record env : Type := Env {
  root_exists : bool;
  listing : list entry;
  response : str;
  generated : str
}.

(** [run]: the object it leaves, and the report if one is written. *)
Definition run (e : env) (st : state) : state * option str :=
  if negb (root_exists e) then (st, None)
  else
    let st := scan_files (listing e) st in
    if (is_empty (js_files st) && is_empty (css_files st))%bool then (st, None)
    else if str_dec (lower_str (response e)) (txt "y") then
      let st := process_files st in
      (st, Some (save_log (generated e) st))
    else (st, None).

End Driver.

Import Driver.

(** ** Texts inside texts *)

Module Sub.

(** [m] occurs in [s]. *)
Definition infix (m s : str) : Prop := exists a b, s = a ++ m ++ b.

(** The character that a literal of the pattern and a character of the
    text are compared by. *)
Definition fold_case (f : flags) (c : ascii) : ascii :=
  if ignorecase f then lower c else c.

(** The pattern cannot match without matching the literal [w]. *)
Inductive needs_lit (w : str) : regex -> Prop :=
| needs_here : needs_lit w (Lit w)
| needs_left a b : needs_lit w a -> needs_lit w (Cat a b)
| needs_right a b : needs_lit w b -> needs_lit w (Cat a b).

(** A name as the CSS patterns capture it. *)
Definition is_css_name (w : str) : bool :=
  match w with
  | c :: rest => (css_name_start c && forallb css_name_char rest)%bool
  | [] => false
  end.

(** A name as the JS patterns capture it. *)
Definition is_js_name (w : str) : bool :=
  match w with
  | c :: rest => (js_name_start c && forallb js_name_char rest)%bool
  | [] => false
  end.

(** The text before the first [c], or all of it. *)
Fixpoint before_chr (c : ascii) (s : str) : str :=
  match s with
  | [] => []
  | x :: s' => if Ascii.eqb x c then [] else x :: before_chr c s'
  end.

(** What a turn of the CSS loop leaves in a writable file with the text
    [content], searched in the corpus [all_content]: the file as it was
    ([original]) or the remover's output. *)
Definition css_outcome (all_content content : str) (original : option str)
    : option str :=
  if is_empty content then original
  else
    let selectors := get_css_selectors content in
    let unused :=
      set_minus selectors (find_references_in_content all_content selectors) in
    if is_empty unused then original
    else Some (remove_unused_css_rules content unused).

(** The same for a turn of the JS loop. *)
Definition js_outcome (all_content content : str) (original : option str)
    : option str :=
  if is_empty content then original
  else
    let identifiers := get_js_identifiers content in
    let unused :=
      set_minus identifiers (find_js_references all_content identifiers) in
    if is_empty unused then original
    else Some (remove_unused_js_code content unused).

(** The list that [scan_files] puts an entry on, if any. *)
Inductive kind : Type := Js | Css | Html | Other.

Definition kind_eqb (a b : kind) : bool :=
  match a, b with
  | Js, Js | Css, Css | Html, Html | Other, Other => true
  | _, _ => false
  end.

Definition kind_of (e : entry) : kind :=
  if entry_is_file e then
    let suffix := lower_str (entry_suffix e) in
    if str_dec suffix (txt ".js") then Js
    else if str_dec suffix (txt ".css") then Css
    else if in_dec str_dec suffix [txt ".html"; txt ".htm"] then Html
    else Other
  else Other.

(** A regular file whose suffix in lower case is one of [suffixes]. *)
Definition has_suffix (suffixes : list str) (e : entry) : bool :=
  (entry_is_file e
   && if in_dec str_dec (lower_str (entry_suffix e)) suffixes
      then true else false)%bool.

(** The paths of a listing that are of one kind, in order. *)
Definition paths_of (k : kind) (listing : list entry) : list path :=
  map entry_path (filter (fun e => kind_eqb (kind_of e) k) listing).

(** The sum of a field over the change log. *)
Definition total (field : change -> Z) (log : list change) : Z :=
  fold_right (fun r acc => (field r + acc)%Z) 0%Z log.

End Sub.

Import Sub.

(* ================================================================== *)
(** * Properties *)

(** ** The embedding on small inputs *)

Module Examples.

Example split_keeps_empty_pieces :
  split newline (txt "a" ++ [newline] ++ [newline] ++ txt "b" ++ [newline])
  = [txt "a"; []; txt "b"; []].
Proof. reflexivity. Qed.

Example strip_both_sides : strip (txt "  .a , .b  ") = txt ".a , .b".
Proof. reflexivity. Qed.

Example slice_before_brace :
  slice_to (txt ".a, .b { color: red; }") (find "{" (txt ".a, .b { color: red; }"))
  = txt ".a, .b ".
Proof. reflexivity. Qed.

(** The lazy star of the comment pattern stops at the first close. *)
Example block_comments_go :
  sub_empty DOTALL block_comment (txt "a/*x*/b/* y */c") = txt "abc".
Proof. vm_compute. reflexivity. Qed.

Example line_comments_go :
  sub_empty MULTILINE line_comment
            (join newline [txt "var a; // one"; txt "x // two"])
  = join newline [txt "var a; "; txt "x "].
Proof. vm_compute. reflexivity. Qed.

Example pseudo_class_is_cut : clean_selector (txt "  a:hover ") = txt "a".
Proof. vm_compute. reflexivity. Qed.

Example selectors_of_a_stylesheet :
  get_css_selectors
    (join newline [txt ".card { color: red; } /* .gone */";
                   txt ".card.active #main-x { color: blue; }"])
  = [txt ".card"; txt ".active"; txt "#main-x"].
Proof. vm_compute. reflexivity. Qed.

Example identifiers_of_a_script :
  get_js_identifiers
    (join newline [txt "// function hidden(){}";
                   txt "function shown(){}"; txt "const  k = 1; let $m;"])
  = [txt "shown"; txt "k"; txt "$m"].
Proof. vm_compute. reflexivity. Qed.

(** A declaration with an assignment is no use of the name; a later
    reading of the name is. *)
Example usage_pattern_skips_assignment :
  find_js_references (txt "var b = 1;") [txt "b"] = []
  /\ find_js_references (txt "var b = 1; f(b);") [txt "b"] = [txt "b"].
Proof. split; vm_compute; reflexivity. Qed.

Example id_selectors_are_searched :
  find_references_in_content
    (txt "<div ID='main'></div> document.getElementById( 'side' )")
    [txt "#main"; txt "#side"; txt "#mai"]
  = [txt "#main"; txt "#side"].
Proof. vm_compute. reflexivity. Qed.

End Examples.

Import Examples.

Module TextFacts.

Lemma split_not_nil (sep : ascii) (s : str) : split sep s <> [].
Proof.
  destruct s as [|c s]; simpl; [discriminate|].
  destruct (Ascii.eqb c sep); [discriminate|].
  destruct (split sep s); discriminate.
Qed.

Lemma join_cons (sep : ascii) (piece : str) (rest : list str) :
  rest <> [] -> join sep (piece :: rest) = piece ++ sep :: join sep rest.
Proof. destruct rest; [congruence | reflexivity]. Qed.

Lemma join_split (sep : ascii) (s : str) : join sep (split sep s) = s.
Proof.
  induction s as [|c s IH]; [reflexivity|].
  simpl. destruct (Ascii.eqb_spec c sep) as [->|Hne].
  - rewrite join_cons by apply split_not_nil. simpl. now rewrite IH.
  - pose proof (split_not_nil sep s) as Hnil.
    destruct (split sep s) as [|piece rest]; [congruence|].
    destruct rest as [|piece' rest].
    + simpl in *. now rewrite IH.
    + change (join sep ((c :: piece) :: piece' :: rest))
        with (c :: (piece ++ sep :: join sep (piece' :: rest))).
      change (join sep (piece :: piece' :: rest))
        with (piece ++ sep :: join sep (piece' :: rest)) in IH.
      now rewrite IH.
Qed.

Lemma split_no_sep (sep : ascii) (s : str) :
  has_char sep s = false -> split sep s = [s].
Proof.
  induction s as [|c s IH]; [reflexivity|].
  unfold has_char in *. simpl. rewrite Ascii.eqb_sym.
  destruct (Ascii.eqb c sep); simpl; [discriminate|].
  intros H. now rewrite IH.
Qed.

Lemma split_app_sep (sep : ascii) (a b : str) :
  has_char sep a = false -> split sep (a ++ sep :: b) = a :: split sep b.
Proof.
  induction a as [|c a IH]; simpl.
  - now rewrite Ascii.eqb_refl.
  - unfold has_char in *. simpl. rewrite Ascii.eqb_sym.
    destruct (Ascii.eqb c sep); simpl; [discriminate|].
    intros H. now rewrite IH.
Qed.

Lemma split_join (sep : ascii) (pieces : list str) :
  pieces <> [] ->
  Forall (fun piece => has_char sep piece = false) pieces ->
  split sep (join sep pieces) = pieces.
Proof.
  induction pieces as [|piece rest IH]; [congruence|].
  intros _ Hall. inversion Hall as [|? ? Hp Hrest]; subst.
  destruct rest as [|piece' rest].
  - simpl. now apply split_no_sep.
  - rewrite join_cons by discriminate.
    rewrite split_app_sep by assumption.
    f_equal. apply IH; [discriminate | assumption].
Qed.

End TextFacts.

Import TextFacts.

Module SubseqFacts.

Lemma subseq_refl {A : Type} (l : list A) : subseq l l.
Proof. induction l; constructor; assumption. Qed.

Lemma subseq_nil_l {A : Type} (l : list A) : subseq [] l.
Proof. induction l; constructor; assumption. Qed.

Lemma subseq_app {A : Type} (a a' b b' : list A) :
  subseq a a' -> subseq b b' -> subseq (a ++ b) (a' ++ b').
Proof.
  intros Ha Hb. induction Ha; simpl; try constructor; assumption.
Qed.

Lemma subseq_filter {A : Type} (keep : A -> bool) (l : list A) :
  subseq (filter keep l) l.
Proof.
  induction l as [|x l IH]; simpl; [constructor|].
  destruct (keep x); constructor; assumption.
Qed.


Lemma subseq_In {A : Type} (kept l : list A) (x : A) :
  subseq kept l -> In x kept -> In x l.
Proof.
  induction 1; simpl; intros Hin; auto.
  destruct Hin; auto.
Qed.

Lemma join_length (sep : ascii) (pieces : list str) :
  List.length (join sep pieces) + 1
  = list_sum (map (fun piece => S (List.length piece)) pieces)
    + (if is_empty pieces then 1 else 0).
Proof.
  induction pieces as [|piece rest IH]; [reflexivity|].
  destruct rest as [|piece' rest].
  - simpl. lia.
  - rewrite join_cons by discriminate.
    change (map (fun p => S (List.length p)) (piece :: piece' :: rest))
      with (S (List.length piece)
            :: map (fun p => S (List.length p)) (piece' :: rest)).
    remember (join sep (piece' :: rest)) as joined.
    rewrite length_app. unfold list_sum in *.
    cbn [List.length fold_right map is_empty] in *. lia.
Qed.

Lemma subseq_weight (kept l : list str) :
  subseq kept l ->
  list_sum (map (fun piece => S (List.length piece)) kept)
  <= list_sum (map (fun piece => S (List.length piece)) l).
Proof. induction 1; simpl; lia. Qed.

Lemma subseq_join_length (sep : ascii) (kept l : list str) :
  subseq kept l ->
  List.length (join sep kept) <= List.length (join sep l).
Proof.
  intros Hsub.
  pose proof (join_length sep kept) as Hk.
  pose proof (join_length sep l) as Hl.
  pose proof (subseq_weight Hsub) as Hw.
  destruct kept as [|k kept'].
  - simpl. lia.
  - destruct l as [|x l'].
    + inversion Hsub.
    + simpl is_empty in *. lia.
Qed.

End SubseqFacts.

Import SubseqFacts.

Module CssFacts.

Lemma css_step_view (u : strset) (st : css_state) (i : nat) (line : str) :
  new_lines (css_step u st (i, line))
  = new_lines st ++ fst (css_line u (mode_of st) line)
  /\ mode_of (css_step u st (i, line)) = snd (css_line u (mode_of st) line).
Proof.
  unfold css_step, css_line, mode_of, rule_selectors.
  destruct st as [out inside depth sels start]; cbn [new_lines in_rule brace_count current_rule_selectors rule_start_line].
  destruct (negb inside && has_char "{" line)%bool.
  - destruct (has_used_selector u _); [now split|].
    destruct (balance line =? 0)%Z; cbn; now rewrite app_nil_r.
  - destruct inside.
    + destruct (depth + balance line =? 0)%Z.
      * destruct (has_used_selector u sels); cbn; [now split|now rewrite app_nil_r].
      * destruct (covered u line); cbn; [now rewrite app_nil_r|now split].
    + now split.
Qed.

Lemma css_fold_view (u : strset) (lines : list str) :
  forall (k : nat) (st : css_state),
    let st' := fold_left (css_step u) (combine (seq k (List.length lines)) lines) st in
    new_lines st' = new_lines st ++ css_emit u (mode_of st) lines
    /\ mode_of st' = css_mode_after u (mode_of st) lines.
Proof.
  induction lines as [|line rest IH]; intros k st;
    cbn [fold_left combine seq List.length css_emit css_mode_after].
  - now rewrite app_nil_r.
  - destruct (css_step_view u st k line) as [Hout Hmode].
    destruct (IH (S k) (css_step u st (k, line))) as [Hout' Hmode'].
    cbv zeta in Hout', Hmode'. rewrite Hout', Hmode', Hout, Hmode.
    now rewrite <- app_assoc.
Qed.

Lemma css_loop_view (u : strset) (lines : list str) :
  new_lines (css_loop u lines) = css_emit u outside lines
  /\ mode_of (css_loop u lines) = css_mode_after u outside lines.
Proof.
  unfold css_loop, enumerate.
  destruct (css_fold_view u lines 0 css_init) as [Hout Hmode].
  cbn in Hout, Hmode. now split.
Qed.

Lemma css_emit_app (u : strset) (a b : list str) :
  forall m, css_emit u m (a ++ b)
            = css_emit u m a ++ css_emit u (css_mode_after u m a) b.
Proof.
  induction a as [|line a IH]; intros m; cbn; [reflexivity|].
  now rewrite IH, app_assoc.
Qed.

Lemma css_mode_after_app (u : strset) (a b : list str) :
  forall m, css_mode_after u m (a ++ b)
            = css_mode_after u (css_mode_after u m a) b.
Proof. induction a as [|line a IH]; intros m; cbn; auto. Qed.

(** Outside a rule, the remembered depth and selectors do not matter. *)
Lemma css_emit_outside (u : strset) (lines : list str) :
  forall d sels d' sels',
    css_emit u (false, d, sels) lines = css_emit u (false, d', sels') lines.
Proof.
  induction lines as [|line rest IH]; intros d sels d' sels'; [reflexivity|].
  cbn. destruct (has_char "{" line).
  - destruct (has_used_selector u _); [reflexivity|].
    destruct (balance line =? 0)%Z; reflexivity.
  - cbn. f_equal. apply IH.
Qed.

Lemma css_line_emits (u : strset) (m : mode) (line : str) :
  fst (css_line u m line) = [] \/ fst (css_line u m line) = [line].
Proof.
  destruct m as [[inside depth] sels]. unfold css_line.
  repeat match goal with
         | |- context [if ?b then _ else _] => destruct b
         end; cbn; auto.
Qed.

Lemma css_emit_subseq (u : strset) (lines : list str) :
  forall m, subseq (css_emit u m lines) lines.
Proof.
  induction lines as [|line rest IH]; intros m; cbn; [constructor|].
  destruct (css_line_emits u m line) as [-> | ->]; cbn.
  - apply subseq_drop, IH.
  - apply subseq_keep, IH.
Qed.

(** The body of a rule: the lines that contain an unused name go. *)
Lemma css_emit_body (u : strset) (sels : list str) (body rest : list str) :
  forall d,
    stays_open d body = true ->
    css_emit u (true, d, sels) (body ++ rest)
    = filter (fun line => negb (covered u line)) body
      ++ css_emit u (true, depth_after d body, sels) rest.
Proof.
  induction body as [|line body IH]; intros d Hopen; [reflexivity|].
  cbn in Hopen. apply andb_true_iff in Hopen as [Hne Hopen].
  apply negb_true_iff in Hne.
  cbn. rewrite Hne.
  destruct (covered u line); cbn; rewrite IH by assumption; reflexivity.
Qed.

End CssFacts.

Import CssFacts.

Module JsFacts.

Lemma should_remove_view (u : strset) (line : str) :
  should_remove u line = is_unused_declaration u line.
Proof.
  unfold is_unused_declaration.
  induction u as [|name u IH]; [reflexivity|].
  cbn. destruct (search no_flags (function_decl_pattern name) line); [reflexivity|].
  destruct (search no_flags (var_decl_pattern name) line); [reflexivity|].
  exact IH.
Qed.

Lemma js_fold_view (u : strset) (lines : list str) :
  forall acc,
    fold_left (js_step u) lines acc
    = acc ++ filter (fun line => negb (is_unused_declaration u line)) lines.
Proof.
  induction lines as [|line rest IH]; intros acc; cbn.
  - now rewrite app_nil_r.
  - rewrite IH. unfold js_step. rewrite should_remove_view.
    destruct (is_unused_declaration u line); cbn; [reflexivity|].
    now rewrite <- app_assoc.
Qed.

End JsFacts.

Import JsFacts.

(** ** The CSS block remover *)

Module CssRemoval.

Lemma css_removal_lines (text : str) (unused : strset) :
  unused <> [] ->
  remove_unused_css_rules text unused
  = join newline (css_emit unused outside (split newline text)).
Proof.
  intros Hne. unfold remove_unused_css_rules.
  destruct unused; [congruence|]. cbn [is_empty].
  now destruct (css_loop_view (s :: unused) (split newline text)) as [-> _].
Qed.

Lemma filter_uncovered (unused : strset) (body : list str) :
  Forall (fun line => covered unused line = false)
         (filter (fun line => negb (covered unused line)) body).
Proof.
  apply Forall_forall. intros line Hin.
  apply filter_In in Hin as [_ Hin]. now apply negb_true_iff in Hin.
Qed.

(** What the loop emits for a rule of several lines that it meets outside
    any rule, and that it is outside again after the closing line. *)
Lemma css_rule_emit (unused : strset) (pre body post : list str)
    (opening closing : str) :
  in_rule (css_loop unused pre) = false ->
  has_char "{" opening = true ->
  balance opening <> 0%Z ->
  stays_open (balance opening) body = true ->
  (depth_after (balance opening) body + balance closing = 0)%Z ->
  css_emit unused outside (pre ++ opening :: body ++ closing :: post)
  = new_lines (css_loop unused pre)
    ++ (if has_used_selector unused (rule_selectors opening)
        then opening :: filter (fun line => negb (covered unused line)) body
                     ++ [closing]
        else filter (fun line => negb (covered unused line)) body)
    ++ new_lines (css_loop unused post).
Proof.
  intros Hout Hbrace Hdepth Hopen Hclose.
  destruct (css_loop_view unused pre) as [Hpre Hmode].
  destruct (css_loop_view unused post) as [Hpost _].
  rewrite css_emit_app, <- Hmode, Hpre, Hpost. f_equal.
  unfold mode_of. rewrite Hout.
  set (d := brace_count (css_loop unused pre)).
  set (sels := current_rule_selectors (css_loop unused pre)).
  cbn [css_emit css_line negb andb]. rewrite Hbrace.
  apply Z.eqb_neq in Hdepth.
  assert (Hrest : forall sels',
             css_emit unused (true, balance opening, sels')
                      (body ++ closing :: post)
             = filter (fun line => negb (covered unused line)) body
               ++ (if has_used_selector unused sels' then [closing] else [])
               ++ css_emit unused outside post).
  { intros sels'. rewrite css_emit_body by assumption.
    f_equal. cbn [css_emit css_line negb andb]. rewrite Hclose.
    cbn [Z.eqb fst snd]. f_equal. apply css_emit_outside. }
  destruct (has_used_selector unused (rule_selectors opening)) eqn:Hused.
  - cbn [fst snd]. rewrite Hrest, Hused. cbn. now rewrite <- app_assoc.
  - rewrite Hdepth. cbn [fst snd]. rewrite Hrest, Hused. reflexivity.
Qed.

(** The code at the rule of the specification: the opening and the closing
    line of the unused rule go, its body line stays behind. *)
Lemma css_unused_rule_body_line_stays :
  remove_unused_css_rules
    (join newline [txt ".a {"; txt " color:red;"; txt "}"]) [txt ".a"]
  = txt " color:red;".
Proof. vm_compute. reflexivity. Qed.

(** A rule on one line that has a used selector leaves the loop inside a
    rule, and an unused rule on the next line is then kept. *)
Lemma css_unused_rule_after_used_rule_stays :
  remove_unused_css_rules
    (join newline [txt ".b { color: red; }"; txt ".a { color: blue; }"])
    [txt ".a"]
  = join newline [txt ".b { color: red; }"; txt ".a { color: blue; }"].
Proof. vm_compute. reflexivity. Qed.

(** C1, as the specification states it, fails on the code.  With [.a]
    unused, the rule [.a {], [ color:red;], [}] is not removed in its
    entirety: its body line is the output.  The mixed rule [.a, .b {] ...
    [}], in which [.b] is covered by no unused name, is not preserved
    verbatim: its body line that contains [.a] is dropped.  And after a
    used rule on one line the loop is still inside a rule, so the opening
    line of the mixed rule [.a, .c {] is dropped as a body line that
    contains [.a]. *)
Lemma css_rule_removal_counterexample :
  remove_unused_css_rules
    (join newline [txt ".a {"; txt " color:red;"; txt "}"]) [txt ".a"]
  <> []
  /\ has_used_selector [txt ".a"] (rule_selectors (txt ".a, .b {")) = true
  /\ remove_unused_css_rules
       (join newline [txt ".a, .b {"; txt " color:red;";
                      txt " background: url(x.a);"; txt "}"])
       [txt ".a"]
     = join newline [txt ".a, .b {"; txt " color:red;"; txt "}"]
  /\ remove_unused_css_rules
       (join newline [txt ".a, .b {"; txt " color:red;";
                      txt " background: url(x.a);"; txt "}"])
       [txt ".a"]
     <> join newline [txt ".a, .b {"; txt " color:red;";
                      txt " background: url(x.a);"; txt "}"]
  /\ has_used_selector [txt ".a"] (rule_selectors (txt ".a, .c {")) = true
  /\ remove_unused_css_rules
       (join newline [txt ".b { color: red; }"; txt ".a, .c {";
                      txt " color:red;"; txt "}"])
       [txt ".a"]
     = join newline [txt ".b { color: red; }"; txt " color:red;"; txt "}"].
Proof.
  repeat split; try (vm_compute; reflexivity); vm_compute; discriminate.
Qed.

(** C1, amended.  Take a non-empty unused set and a stylesheet in which
    a rule of several lines (an opening line with a brace, body lines on
    which the brace depth stays positive or negative but not zero, a
    closing line that brings it to zero) starts where the loop is outside
    any rule.  If some selector of the rule is covered by no unused name,
    the output keeps the opening line, the closing line and, in order and
    verbatim, every body line that contains no unused name; the body
    lines that contain an unused name are dropped.  If every selector is
    covered, the opening and the closing line are removed, and what is
    kept of the rule is a subsequence of its body lines, none of which
    contains an unused name.  The lines before and after the rule are
    treated as they are without it. *)
Theorem css_rule_removal (unused : strset) (pre body post : list str)
    (opening closing : str) :
  unused <> [] ->
  Forall no_newline (pre ++ opening :: body ++ closing :: post) ->
  in_rule (css_loop unused pre) = false ->
  has_char "{" opening = true ->
  balance opening <> 0%Z ->
  stays_open (balance opening) body = true ->
  (depth_after (balance opening) body + balance closing = 0)%Z ->
  let text := join newline (pre ++ opening :: body ++ closing :: post) in
  let before := new_lines (css_loop unused pre) in
  let after := new_lines (css_loop unused post) in
  (has_used_selector unused (rule_selectors opening) = true ->
   remove_unused_css_rules text unused
   = join newline
       (before
        ++ (opening :: filter (fun line => negb (covered unused line)) body
                    ++ [closing])
        ++ after))
  /\ (has_used_selector unused (rule_selectors opening) = false ->
      exists kept,
        subseq kept body
        /\ Forall (fun line => covered unused line = false) kept
        /\ remove_unused_css_rules text unused
           = join newline (before ++ kept ++ after)).
Proof.
  intros Hne Hlines Hout Hbrace Hdepth Hopen Hclose text before after.
  assert (Hrun : remove_unused_css_rules text unused
                 = join newline
                     (css_emit unused outside
                        (pre ++ opening :: body ++ closing :: post))).
  { rewrite css_removal_lines by assumption. unfold text.
    rewrite split_join; [reflexivity | | exact Hlines].
    destruct pre; discriminate. }
  rewrite Hrun, css_rule_emit by assumption.
  split; intros Hused; rewrite Hused.
  - reflexivity.
  - exists (filter (fun line => negb (covered unused line)) body).
    repeat split.
    + apply subseq_filter.
    + apply filter_uncovered.
Qed.

Lemma css_rule_removal_witness :
  remove_unused_css_rules
    (join newline ([txt "@import url(base.css);"]
                   ++ txt ".a, .b {"
                   :: [txt " color:red;"; txt " background: url(x.a);"]
                   ++ txt "}" :: [txt "p { margin: 0 }"]))
    [txt ".a"]
  = join newline
      (new_lines (css_loop [txt ".a"] [txt "@import url(base.css);"])
       ++ (txt ".a, .b {"
           :: filter (fun line => negb (covered [txt ".a"] line))
                     [txt " color:red;"; txt " background: url(x.a);"]
           ++ [txt "}"])
       ++ new_lines (css_loop [txt ".a"] [txt "p { margin: 0 }"])).
Proof.
  apply (@css_rule_removal [txt ".a"] [txt "@import url(base.css);"]
           [txt " color:red;"; txt " background: url(x.a);"]
           [txt "p { margin: 0 }"] (txt ".a, .b {") (txt "}")).
  - discriminate.
  - repeat constructor.
  - reflexivity.
  - reflexivity.
  - vm_compute. discriminate.
  - reflexivity.
  - reflexivity.
  - reflexivity.
Defined.

End CssRemoval.

Import CssRemoval.

(** ** The JS line remover *)

Module JsRemoval.

Lemma is_unused_declaration_iff (unused : strset) (line : str) :
  is_unused_declaration unused line = true
  <-> exists name,
        In name unused
        /\ (search no_flags (function_decl_pattern name) line = true
            \/ search no_flags (var_decl_pattern name) line = true).
Proof.
  unfold is_unused_declaration. rewrite existsb_exists.
  split; intros [name [Hin Hm]]; exists name; split; auto.
  - now apply orb_true_iff in Hm.
  - now apply orb_true_iff.
Qed.

Lemma js_removal_lines (text : str) (unused : strset) :
  remove_unused_js_code text unused
  = join newline
      (filter (fun line => negb (is_unused_declaration unused line))
              (split newline text)).
Proof.
  unfold remove_unused_js_code. destruct unused as [|name unused].
  - cbn [is_empty is_unused_declaration existsb negb].
    rewrite forallb_filter_id; [symmetry; apply join_split|].
    apply forallb_forall. reflexivity.
  - cbn [is_empty]. now rewrite js_fold_view.
Qed.

End JsRemoval.

Import JsRemoval.

(** ** The matcher *)

Module ReFacts.

Lemma chr_matches_refl (f : flags) (c : ascii) : chr_matches f c c = true.
Proof. unfold chr_matches. destruct (ignorecase f); apply Ascii.eqb_refl. Qed.

(** A literal matches its own text, and stops right after it. *)
Lemma ends_Lit_self (f : flags) (w : str) :
  forall prev rest,
    exists prev', In (prev', rest) (ends f (Lit w) (prev, w ++ rest)).
Proof.
  induction w as [|c w IH]; intros prev rest.
  - exists prev. now left.
  - destruct (IH (Some c) rest) as [prev' Hin]. exists prev'.
    cbn [Lit ends]. apply in_flat_map. exists (Some c, w ++ rest). split.
    + unfold eat. cbn. rewrite chr_matches_refl. now left.
    + exact Hin.
Qed.

(** A star can always stop where it starts. *)
Lemma star_ends_self (greedy : bool) (step : cursor -> list cursor)
    (fuel : nat) (p : cursor) :
  In p (star_ends greedy step fuel p).
Proof.
  destruct fuel; cbn; [now left|].
  destruct greedy; [apply in_or_app; right|]; now left.
Qed.

Lemma ends_Cat_intro (f : flags) (a b : regex) (p m q : cursor) :
  In m (ends f a p) -> In q (ends f b m) -> In q (ends f (Cat a b) p).
Proof. intros Ha Hb. cbn [ends]. apply in_flat_map. now exists m. Qed.

(** The scan finds a match when there is one at some position. *)
Lemma scan_finds (f : flags) (r : regex) (c : ascii) (s : str) :
  forall pre prev,
    ends f r (Some c, s) <> [] ->
    scan f r prev (pre ++ c :: s) <> None.
Proof.
  assert (Hhere : forall prev, ends f r (prev, s) <> [] ->
                               scan f r prev s <> None).
  { intros prev Hm. destruct s as [|y s']; cbn [scan]; unfold match_at;
      destruct (ends f r (prev, _)); cbn; congruence. }
  induction pre as [|x pre IH]; intros prev Hm.
  - cbn [app scan]. destruct (match_at _ _ _); [congruence|].
    specialize (Hhere (Some c) Hm).
    destruct (scan f r (Some c) s) as [[[? ?] ?]|]; congruence.
  - cbn [app scan]. destruct (match_at _ _ _); [congruence|].
    specialize (IH (Some x) Hm).
    destruct (scan f r (Some x) (pre ++ c :: s)) as [[[? ?] ?]|]; congruence.
Qed.

Lemma search_finds (f : flags) (r : regex) (c : ascii) (pre s : str)
    (q : cursor) :
  In q (ends f r (Some c, s)) -> search f r (pre ++ c :: s) = true.
Proof.
  intros Hin. unfold search.
  assert (Hne : ends f r (Some c, s) <> []) by (intros E; now rewrite E in Hin).
  pose proof (@scan_finds f r c s pre None Hne) as Hs.
  destruct (scan f r None (pre ++ c :: s)); congruence.
Qed.

(** A pattern that starts with [^] matches, if at all, at the start. *)
Lemma ends_Bol_start (r : regex) (s : str) :
  ends no_flags (Cat Bol r) (None, s) = ends no_flags r (None, s).
Proof. cbn [ends at_bol fst flat_map]. apply app_nil_r. Qed.

Lemma ends_Bol_later (r : regex) (c : ascii) (s : str) :
  ends no_flags (Cat Bol r) (Some c, s) = [].
Proof. reflexivity. Qed.

Lemma search_anchored (r : regex) (s : str) :
  search no_flags (Cat Bol r) s
  = match ends no_flags r (None, s) with [] => false | _ :: _ => true end.
Proof.
  assert (Hlater : forall s c, scan no_flags (Cat Bol r) (Some c) s = None).
  { clear s. induction s as [|x s IH]; intros c.
    - cbn [scan]. unfold match_at. now rewrite ends_Bol_later.
    - cbn [scan]. unfold match_at. now rewrite ends_Bol_later, IH. }
  unfold search.
  destruct s as [|x s]; cbn [scan]; unfold match_at; rewrite ends_Bol_start.
  - now destruct (ends _ _ _).
  - destruct (ends _ _ _); [|reflexivity].
    cbn [hd_error]. now rewrite Hlater.
Qed.

Lemma try_patterns_found (f : flags) (patterns : list regex) (content : str) :
  fst (try_patterns f patterns content)
  = existsb (fun pattern => search f pattern content) patterns.
Proof.
  induction patterns as [|pattern rest IH]; [reflexivity|].
  cbn. destruct (search f pattern content); [reflexivity|].
  destruct (try_patterns f rest content). exact IH.
Qed.

End ReFacts.

Import ReFacts.

(** ** The reference scanners *)

Module Scanner.

Lemma set_add_In (x y : str) (s : strset) :
  In x (set_add str_dec y s) <-> x = y \/ In x s.
Proof. apply set_add_iff. Qed.

(** The loop that collects the referenced candidates. *)
Lemma collect_In (keep : str -> bool) (candidates : strset) (x : str) :
  forall acc,
    In x (fold_left (fun referenced c =>
                       if keep c then set_add str_dec c referenced
                       else referenced) candidates acc)
    <-> In x acc \/ (In x candidates /\ keep x = true).
Proof.
  induction candidates as [|c rest IH]; intros acc; cbn [fold_left].
  - cbn. tauto.
  - rewrite IH. destruct (keep c) eqn:Hk.
    + rewrite set_add_In. cbn. split.
      * intros [[-> | H] | [H1 H2]]; auto.
      * intros [H | [[-> | H1] H2]]; auto.
    + cbn. split.
      * intros [H | [H1 H2]]; auto.
      * intros [H | [[-> | H1] H2]]; auto. congruence.
Qed.

Lemma find_references_In (content : str) (selectors : strset) (x : str) :
  In x (find_references_in_content content selectors)
  <-> In x selectors /\ selector_referenced content x = true.
Proof.
  unfold find_references_in_content. rewrite collect_In. cbn. tauto.
Qed.

Lemma find_js_references_In (content : str) (identifiers : strset) (x : str) :
  In x (find_js_references content identifiers)
  <-> In x identifiers /\ identifier_referenced content x = true.
Proof.
  unfold find_js_references. rewrite collect_In. cbn. tauto.
Qed.

(** C2.  A class selector [.x] of the candidate set is in the referenced
    set exactly when the corpus matches, with case ignored, one of the
    three class patterns for [x] (the [class] attribute, the [className]
    attribute, the [classList] call); the patterns are tried in this
    order, and the loop is left at the first one that matches: one search
    if the first matches, two if only the second does, three otherwise. *)
Theorem class_selector_referenced (content : str) (selectors : strset)
    (x : str) :
  (In ("."%char :: x) (find_references_in_content content selectors)
   <-> In ("."%char :: x) selectors
       /\ exists pattern,
            In pattern (class_patterns x)
            /\ search IGNORECASE pattern content = true)
  /\ snd (try_patterns IGNORECASE (class_patterns x) content)
     = (if search IGNORECASE (attribute_pattern (txt "class") x) content
        then 1
        else if search IGNORECASE (attribute_pattern (txt "className") x)
                       content
             then 2 else 3).
Proof.
  split.
  - rewrite find_references_In.
    unfold selector_referenced. cbn [txt list_ascii_of_string startswith].
    rewrite Ascii.eqb_refl. cbn [andb skipn].
    rewrite try_patterns_found, existsb_exists. tauto.
  - unfold class_patterns. cbn [try_patterns].
    destruct (search IGNORECASE (attribute_pattern (txt "class") x) content);
      [reflexivity|].
    destruct (search IGNORECASE (attribute_pattern (txt "className") x)
                     content); [reflexivity|].
    destruct (search IGNORECASE (classlist_pattern x) content); reflexivity.
Qed.

(** The name is bounded by [\b] and case is ignored: [foo] is not found
    in [foobar], and is found in an attribute written in capitals. *)
Lemma class_reference_examples :
  find_references_in_content (txt "<p class='foobar'>") [txt ".foo"] = []
  /\ find_references_in_content (txt "<p CLASS = 'x Foo y'>") [txt ".foo"]
     = [txt ".foo"]
  /\ find_references_in_content (txt "el.classList.toggle('foo')")
       [txt ".foo"; txt ".fo"]
     = [txt ".foo"].
Proof. repeat split; vm_compute; reflexivity. Qed.

(** The call pattern matches the text of a declaration. *)
Lemma call_pattern_matches_declaration (c : ascii) (name pre post : str) :
  is_word c = true ->
  search no_flags (call_pattern (c :: name))
         (pre ++ txt "function " ++ (c :: name) ++ txt "(" ++ post)
  = true.
Proof.
  intros Hw.
  replace (pre ++ txt "function " ++ (c :: name) ++ txt "(" ++ post)
    with ((pre ++ txt "function") ++ " "%char :: (c :: name) ++ "("%char :: post)
    by (rewrite <- app_assoc; reflexivity).
  apply search_finds with (q := (Some "("%char, post)).
  unfold call_pattern, escape.
  eapply ends_Cat_intro.
  - cbn [ends]. unfold word_before, word_after. cbn [fst snd app].
    rewrite Hw. cbn. left. reflexivity.
  - destruct (ends_Lit_self no_flags (c :: name) (Some " "%char)
                (txt "(" ++ post)) as [prev' Hlit].
    eapply ends_Cat_intro; [exact Hlit|].
    eapply ends_Cat_intro; [cbn [ends]; apply star_ends_self|].
    cbn. left. reflexivity.
Qed.

(** C3, as the specification states it, fails on the code: a name that
    starts with a dollar sign is an identifier of the program, and after
    the space of [function $f(] there is no [\b] before it, so neither
    pattern matches and [$f] is in the unused set. *)
Lemma declared_function_counterexample :
  In (txt "$f") (get_js_identifiers (txt "function $f(){}"))
  /\ find_js_references (txt "function $f(){}")
       (get_js_identifiers (txt "function $f(){}")) = []
  /\ set_minus (get_js_identifiers (txt "function $f(){}"))
       (find_js_references (txt "function $f(){}")
          (get_js_identifiers (txt "function $f(){}")))
     = [txt "$f"].
Proof. repeat split; vm_compute; auto. Qed.

(** C3, amended.  For every identifier NAME whose first character is a
    word character (a letter, a digit or the underscore; not the dollar
    sign) and every corpus that contains the text [function NAME(], an
    identifier set that contains NAME has NAME in its referenced set,
    because the call pattern matches the declaration; so NAME is not in
    the unused set. *)
Theorem declared_function_is_referenced (c : ascii) (name pre post : str)
    (identifiers : strset) :
  is_word c = true ->
  In (c :: name) identifiers ->
  let content := pre ++ txt "function " ++ (c :: name) ++ txt "(" ++ post in
  search no_flags (call_pattern (c :: name)) content = true
  /\ In (c :: name) (find_js_references content identifiers)
  /\ ~ In (c :: name)
        (set_minus identifiers (find_js_references content identifiers)).
Proof.
  intros Hw Hin content.
  assert (Hcall : search no_flags (call_pattern (c :: name)) content = true)
    by now apply call_pattern_matches_declaration.
  assert (Href : In (c :: name) (find_js_references content identifiers)).
  { apply find_js_references_In. split; [assumption|].
    unfold identifier_referenced, js_patterns. cbn [try_patterns].
    now rewrite Hcall. }
  repeat split; try assumption.
  unfold set_minus. intros Hd. apply set_diff_iff in Hd. tauto.
Qed.

Lemma declared_function_is_referenced_witness :
  In (txt "unused")
     (find_js_references
        (txt "var x = 1; " ++ txt "function " ++ txt "unused" ++ txt "("
         ++ txt "){}")
        [txt "used"; txt "unused"]).
Proof.
  apply (@declared_function_is_referenced "u"%char (txt "nused")
           (txt "var x = 1; ") (txt "){}") [txt "used"; txt "unused"]).
  - reflexivity.
  - right. left. reflexivity.
Defined.

(** C4 on the code.  With the text of the scenario as the corpus, the
    declaration [function unused(] matches the call pattern, so [unused]
    is in the referenced set, the unused set is empty and the text comes
    back as it is; the second line is deleted only when the remover is
    handed the set that the scanner does not produce. *)
Theorem js_scenario_on_the_code :
  let text := join newline [txt "function used(){}";
                            txt "function unused(){}"; txt "used();"] in
  let identifiers := get_js_identifiers text in
  let referenced := find_js_references text identifiers in
  identifiers = [txt "used"; txt "unused"]
  /\ In (txt "unused") referenced
  /\ set_minus identifiers referenced = []
  /\ remove_unused_js_code text (set_minus identifiers referenced) = text
  /\ remove_unused_js_code text [txt "unused"]
     = join newline [txt "function used(){}"; txt "used();"].
Proof. cbv zeta. repeat split; vm_compute; auto. Qed.

End Scanner.

Import Scanner.

(** ** Lines are only deleted *)

Module Lines.

Lemma css_removal_subseq (text : str) (unused : strset) :
  exists kept,
    subseq kept (split newline text)
    /\ remove_unused_css_rules text unused = join newline kept.
Proof.
  destruct unused as [|name unused].
  - exists (split newline text). split; [apply subseq_refl|].
    cbn. symmetry. apply join_split.
  - exists (css_emit (name :: unused) outside (split newline text)). split.
    + apply css_emit_subseq.
    + apply css_removal_lines. discriminate.
Qed.

Lemma js_removal_subseq (text : str) (unused : strset) :
  exists kept,
    subseq kept (split newline text)
    /\ remove_unused_js_code text unused = join newline kept.
Proof.
  eexists. split; [|apply js_removal_lines]. apply subseq_filter.
Qed.

Lemma shorter_of_subseq (text out : str) (kept : list str) :
  subseq kept (split newline text) -> out = join newline kept ->
  (len out <= len text)%Z.
Proof.
  intros Hsub ->. unfold len. apply inj_le.
  rewrite <- (join_split newline text) at 1.
  now apply subseq_join_length.
Qed.

Lemma css_removal_shorter (text : str) (unused : strset) :
  (len (remove_unused_css_rules text unused) <= len text)%Z.
Proof.
  destruct (css_removal_subseq text unused) as [kept [Hsub Heq]].
  eapply shorter_of_subseq; eassumption.
Qed.

Lemma js_removal_shorter (text : str) (unused : strset) :
  (len (remove_unused_js_code text unused) <= len text)%Z.
Proof.
  destruct (js_removal_subseq text unused) as [kept [Hsub Heq]].
  eapply shorter_of_subseq; eassumption.
Qed.

Lemma remover_of_shorter (file_type text : str) (unused : strset) :
  (len (remover_of file_type text unused) <= len text)%Z.
Proof.
  unfold remover_of. destruct (str_dec file_type (txt "CSS")).
  - apply css_removal_shorter.
  - apply js_removal_shorter.
Qed.

End Lines.

Import Lines.

(** ** The run *)

Module Run.

Lemma dict_get_set (key k : path) (v : str) (d : dict) :
  dict_get key (dict_set k v d)
  = if str_dec k key then Some v else dict_get key d.
Proof.
  induction d as [|[k' v'] d IH]; cbn.
  - reflexivity.
  - destruct (str_dec k' k) as [->|Hne]; cbn.
    + destruct (str_dec k key); reflexivity.
    + destruct (str_dec k' key) as [->|Hne'].
      * destruct (str_dec k key); [congruence | reflexivity].
      * exact IH.
Qed.

(** What the second loop of [process_files] leaves in [js_contents]. *)
Lemma read_js_fold (st : state) (l : list path) :
  forall (acc : dict * str) (key : path),
    dict_get key
      (fst (fold_left (fun acc js_file =>
                         let content := read_file_safe st js_file in
                         (dict_set js_file content (fst acc),
                          snd acc ++ newline :: content)) l acc))
    = if in_dec str_dec key l then Some (read_file_safe st key)
      else dict_get key (fst acc).
Proof.
  induction l as [|p l IH]; intros acc key; [reflexivity|].
  cbn [fold_left]. rewrite IH. cbn [fst].
  rewrite dict_get_set.
  destruct (in_dec str_dec key l) as [Hin|Hnin];
    destruct (in_dec str_dec key (p :: l)) as [Hin'|Hnin']; cbn in *.
  - reflexivity.
  - tauto.
  - destruct (str_dec p key) as [->|Hne]; [reflexivity | tauto].
  - destruct (str_dec p key) as [->|Hne]; [tauto | reflexivity].
Qed.

Lemma js_contents_get (st : state) (all : str) (p : path) :
  In p (js_files st) ->
  dict_get p (fst (read_js st all)) = Some (read_file_safe st p).
Proof.
  intros Hin. unfold read_js. rewrite read_js_fold.
  destruct (in_dec str_dec p (js_files st)); tauto.
Qed.

Lemma js_contents_value (st : state) (all : str) (p : path) (text : str) :
  dict_get p (fst (read_js st all)) = Some text ->
  text = read_file_safe st p.
Proof.
  unfold read_js. rewrite read_js_fold. cbn [fst dict_get].
  destruct (in_dec str_dec p (js_files st)); congruence.
Qed.

(** *** One turn of each loop *)

Lemma process_css_file_cases (all : str) (st : state) (p : path) :
  process_css_file all st p = st
  \/ exists unused,
       read_file_safe st p <> []
       /\ unused <> []
       /\ process_css_file all st p
          = edit st p (txt "CSS") unused (read_file_safe st p)
                 (remove_unused_css_rules (read_file_safe st p) unused).
Proof.
  unfold process_css_file.
  destruct (read_file_safe st p) eqn:Hread; [now left|].
  cbn [is_empty].
  destruct (set_minus _ _) eqn:Hunused; [now left|].
  right. eexists. repeat split; try discriminate.
Qed.

Lemma process_js_file_cases (all : str) (d : dict) (st : state) (p : path) :
  process_js_file all d st p = st
  \/ exists unused before,
       dict_get p d = Some before
       /\ before <> []
       /\ unused <> []
       /\ process_js_file all d st p
          = edit st p (txt "JavaScript") unused before
                 (remove_unused_js_code before unused).
Proof.
  unfold process_js_file.
  destruct (dict_get p d) as [before|]; [|now left].
  destruct before eqn:Hb; [now left|].
  cbn [is_empty].
  destruct (set_minus _ _) eqn:Hunused; [now left|].
  right. do 2 eexists. repeat split; try discriminate.
Qed.

(** *** What an edit changes *)

Lemma edit_log (st : state) (p ty : str) (unused : strset) (before after : str) :
  changes_log (edit st p ty unused before after)
  = changes_log st
    ++ [Change (now st (clock_reads st)) p ty unused (len before) (len after)
               (len before - len after)%Z].
Proof. unfold edit, write_file. cbn. now destruct (writable st p). Qed.

Lemma edit_files (st : state) (p ty : str) (unused : strset)
    (before after : str) (q : path) :
  q <> p -> files (edit st p ty unused before after) q = files st q.
Proof.
  intros Hne. unfold edit, write_file. cbn.
  destruct (writable st p); cbn; [|reflexivity].
  destruct (str_dec q p); [congruence | reflexivity].
Qed.

Lemma edit_writes (st : state) (p ty : str) (unused : strset)
    (before after : str) :
  writes (edit st p ty unused before after)
  = writes st ++ (if writable st p then [(p, after)] else []).
Proof.
  unfold edit, write_file. cbn.
  destruct (writable st p); cbn; [reflexivity | now rewrite app_nil_r].
Qed.

Lemma edit_setup (st : state) (p ty : str) (unused : strset)
    (before after : str) :
  let st' := edit st p ty unused before after in
  html_files st' = html_files st /\ js_files st' = js_files st
  /\ css_files st' = css_files st /\ writable st' = writable st.
Proof. unfold edit, write_file. cbn. destruct (writable st p); cbn; auto. Qed.

Lemma css_fold_setup (all : str) (l : list path) :
  forall st,
    let st' := fold_left (process_css_file all) l st in
    js_files st' = js_files st /\ writable st' = writable st.
Proof.
  induction l as [|p l IH]; intros st; [now split|].
  cbn [fold_left]. destruct (IH (process_css_file all st p)) as [Hjs Hw].
  cbv zeta. rewrite Hjs, Hw.
  destruct (process_css_file_cases all st p) as [-> | [u [_ [_ ->]]]];
    [now split|].
  destruct (edit_setup st p (txt "CSS") u (read_file_safe st p)
              (remove_unused_css_rules (read_file_safe st p) u))
    as [_ [H1 [_ H2]]].
  now split.
Qed.

End Run.

Import Run.

(** ** Invariants of the two file loops *)

Module Loops.

Lemma remover_of_css : remover_of (txt "CSS") = remove_unused_css_rules.
Proof. reflexivity. Qed.

Lemma remover_of_js : remover_of (txt "JavaScript") = remove_unused_js_code.
Proof. reflexivity. Qed.

Lemma read_after_edit (st : state) (p ty : str) (unused : strset)
    (before after : str) (q : path) :
  q <> p ->
  read_file_safe (edit st p ty unused before after) q = read_file_safe st q.
Proof. intros Hne. unfold read_file_safe. now rewrite edit_files. Qed.

(** A file that reads as the empty text is left alone by the CSS loop. *)
Lemma css_fold_keeps (all : str) (p : path) (l : list path) :
  forall st,
    read_file_safe st p = [] ->
    let st' := fold_left (process_css_file all) l st in
    files st' p = files st p
    /\ (forall r, In r (changes_log st') -> file r = p -> In r (changes_log st))
    /\ (forall w, In w (writes st') -> fst w = p -> In w (writes st)).
Proof.
  induction l as [|q l IH]; intros st Hread; [cbn; auto|].
  cbn [fold_left].
  destruct (process_css_file_cases all st q) as [-> | [u [Hq [_ ->]]]];
    [now apply IH|].
  assert (Hne : p <> q) by congruence.
  set (st1 := edit st q (txt "CSS") u (read_file_safe st q)
                   (remove_unused_css_rules (read_file_safe st q) u)).
  assert (Hread1 : read_file_safe st1 p = [])
    by (unfold st1; now rewrite read_after_edit).
  destruct (IH st1 Hread1) as [Hf [Hl Hw]]. cbv zeta.
  split; [|split].
  - rewrite Hf. unfold st1. now apply edit_files.
  - intros r Hin Hfile. specialize (Hl r Hin Hfile).
    unfold st1 in Hl. rewrite edit_log in Hl.
    apply in_app_or in Hl as [Hl | [<- | []]]; [assumption|].
    cbn in Hfile. congruence.
  - intros w Hin Hfst. specialize (Hw w Hin Hfst).
    unfold st1 in Hw. rewrite edit_writes in Hw.
    apply in_app_or in Hw as [Hw | Hw]; [assumption|].
    destruct (writable st q); [|contradiction].
    destruct Hw as [<- | []]. cbn in Hfst. congruence.
Qed.

(** The same for the JS loop, when [js_contents] holds the empty text for
    the file. *)
Lemma js_fold_keeps (all : str) (d : dict) (p : path) (l : list path) :
  (forall text, dict_get p d = Some text -> text = []) ->
  forall st,
    let st' := fold_left (process_js_file all d) l st in
    files st' p = files st p
    /\ (forall r, In r (changes_log st') -> file r = p -> In r (changes_log st))
    /\ (forall w, In w (writes st') -> fst w = p -> In w (writes st)).
Proof.
  intros Hd. induction l as [|q l IH]; intros st; [cbn; auto|].
  cbn [fold_left].
  destruct (process_js_file_cases all d st q)
    as [-> | [u [before [Hget [Hq [_ ->]]]]]]; [now apply IH|].
  assert (Hne : p <> q).
  { intros ->. apply Hq. now apply Hd. }
  set (st1 := edit st q (txt "JavaScript") u before
                   (remove_unused_js_code before u)).
  destruct (IH st1) as [Hf [Hl Hw]]. cbv zeta.
  split; [|split].
  - rewrite Hf. unfold st1. now apply edit_files.
  - intros r Hin Hfile. specialize (Hl r Hin Hfile).
    unfold st1 in Hl. rewrite edit_log in Hl.
    apply in_app_or in Hl as [Hl | [<- | []]]; [assumption|].
    cbn in Hfile. congruence.
  - intros w Hin Hfst. specialize (Hw w Hin Hfst).
    unfold st1 in Hw. rewrite edit_writes in Hw.
    apply in_app_or in Hw as [Hw | Hw]; [assumption|].
    destruct (writable st q); [|contradiction].
    destruct Hw as [<- | []]. cbn in Hfst. congruence.
Qed.

(** Every record of the CSS loop is accounted for by the text that the
    file had when the run started, when no path is listed twice. *)
Lemma css_fold_accounted (all : str) (content : path -> str) (l : list path) :
  forall st,
    NoDup l ->
    (forall q, In q l -> read_file_safe st q = content q) ->
    Forall (fun r => accounted (content (file r)) r) (changes_log st) ->
    Forall (fun r => accounted (content (file r)) r)
           (changes_log (fold_left (process_css_file all) l st)).
Proof.
  induction l as [|p l IH]; intros st Hnd Hread Hlog; [assumption|].
  cbn [fold_left]. inversion Hnd as [|? ? Hnin Hnd']; subst.
  destruct (process_css_file_cases all st p) as [-> | [u [_ [_ ->]]]].
  - apply IH; auto. intros q Hq. apply Hread. now right.
  - apply IH; [assumption| |].
    + intros q Hq. rewrite read_after_edit by congruence.
      apply Hread. now right.
    + rewrite edit_log. apply Forall_app. split; [assumption|].
      constructor; [|constructor].
      unfold accounted. cbn [file type_ unused_items original_size new_size
                               bytes_saved].
      rewrite remover_of_css, <- (Hread p) by now left. auto.
Qed.

Lemma js_fold_accounted (all : str) (d : dict) (content : path -> str)
    (l : list path) :
  (forall q text, dict_get q d = Some text -> text = content q) ->
  forall st,
    Forall (fun r => accounted (content (file r)) r) (changes_log st) ->
    Forall (fun r => accounted (content (file r)) r)
           (changes_log (fold_left (process_js_file all d) l st)).
Proof.
  intros Hd. induction l as [|p l IH]; intros st Hlog; [assumption|].
  cbn [fold_left].
  destruct (process_js_file_cases all d st p)
    as [-> | [u [before [Hget [_ [_ ->]]]]]]; [now apply IH|].
  apply IH. rewrite edit_log. apply Forall_app. split; [assumption|].
  constructor; [|constructor].
  unfold accounted. cbn [file type_ unused_items original_size new_size
                           bytes_saved].
  rewrite remover_of_js, <- (Hd p before Hget). auto.
Qed.

(** A loop whose turns are edits by a remover never logs a negative
    saving. *)
Lemma fold_saves (step : state -> path -> state) :
  (forall st p,
      step st p = st
      \/ exists ty u before,
           step st p = edit st p ty u before (remover_of ty before u)) ->
  forall l st,
    Forall (fun r => (new_size r <= original_size r)%Z
                     /\ (0 <= bytes_saved r)%Z) (changes_log st) ->
    Forall (fun r => (new_size r <= original_size r)%Z
                     /\ (0 <= bytes_saved r)%Z)
           (changes_log (fold_left step l st)).
Proof.
  intros Hstep. induction l as [|p l IH]; intros st Hlog; [assumption|].
  cbn [fold_left].
  destruct (Hstep st p) as [-> | [ty [u [before ->]]]]; [now apply IH|].
  apply IH. rewrite edit_log. apply Forall_app. split; [assumption|].
  constructor; [|constructor]. cbn.
  pose proof (remover_of_shorter ty before u). lia.
Qed.

Lemma css_turn_is_edit (all : str) (st : state) (p : path) :
  process_css_file all st p = st
  \/ exists ty u before,
       process_css_file all st p
       = edit st p ty u before (remover_of ty before u).
Proof.
  destruct (process_css_file_cases all st p) as [H | [u [_ [_ H]]]];
    [now left|].
  right. exists (txt "CSS"), u, (read_file_safe st p).
  now rewrite remover_of_css.
Qed.

Lemma js_turn_is_edit (all : str) (d : dict) (st : state) (p : path) :
  process_js_file all d st p = st
  \/ exists ty u before,
       process_js_file all d st p
       = edit st p ty u before (remover_of ty before u).
Proof.
  destruct (process_js_file_cases all d st p)
    as [H | [u [before [_ [_ [_ H]]]]]]; [now left|].
  right. exists (txt "JavaScript"), u, before.
  now rewrite remover_of_js.
Qed.

Lemma fold_fixed (step : state -> path -> state) (st : state)
    (l : list path) :
  (forall p, In p l -> step st p = st) -> fold_left step l st = st.
Proof.
  induction l as [|p l IH]; intros Hfix; [reflexivity|].
  cbn [fold_left]. rewrite Hfix by now left.
  apply IH. intros q Hq. apply Hfix. now right.
Qed.

(** [process_files], with its two reading loops named. *)
Lemma process_files_unfold (st : state) :
  process_files st
  = fold_left (process_js_file (corpus st) (fst (read_js st (read_html st))))
      (js_files (fold_left (process_css_file (corpus st)) (css_files st) st))
      (fold_left (process_css_file (corpus st)) (css_files st) st).
Proof.
  unfold process_files, corpus.
  now destruct (read_js st (read_html st)).
Qed.

(** A run in which no file has an unused name changes nothing. *)
Lemma run_without_unused (st : state) :
  (forall p, In p (css_files st) -> css_unused st p = []) ->
  (forall p, In p (js_files st) -> js_unused st p = []) ->
  process_files st = st.
Proof.
  intros Hcss Hjs. rewrite process_files_unfold.
  assert (Hfold : fold_left (process_css_file (corpus st)) (css_files st) st
                  = st).
  { apply fold_fixed. intros p Hp. specialize (Hcss p Hp).
    unfold process_css_file. unfold css_unused in Hcss.
    destruct (read_file_safe st p); [reflexivity|]. cbn [is_empty].
    cbv zeta in Hcss. now rewrite Hcss. }
  rewrite Hfold. apply fold_fixed. intros p Hp. specialize (Hjs p Hp).
  unfold process_js_file. rewrite js_contents_get by assumption.
  unfold js_unused in Hjs.
  destruct (read_file_safe st p); [reflexivity|]. cbn [is_empty].
  cbv zeta in Hjs. now rewrite Hjs.
Qed.

End Loops.

Import Loops.

(** ** The removers and the run: the properties of the specification *)

Module Properties.

(** C5.  [remove_unused_js_code] drops exactly the lines that match, for
    some unused name, the function declaration pattern or the variable
    declaration pattern, and joins all other lines, verbatim and in
    order; a line of a function body is such an other line unless it is
    itself a declaration of an unused name. *)
Theorem js_line_removal (text : str) (unused : strset) :
  remove_unused_js_code text unused
  = join newline
      (filter (fun line => negb (is_unused_declaration unused line))
              (split newline text))
  /\ forall line,
       is_unused_declaration unused line = true
       <-> exists name,
             In name unused
             /\ (search no_flags (function_decl_pattern name) line = true
                 \/ search no_flags (var_decl_pattern name) line = true).
Proof.
  split; [apply js_removal_lines | apply is_unused_declaration_iff].
Qed.

(** The body of a function of several lines stays when its declaration
    line goes. *)
Lemma js_function_body_stays :
  remove_unused_js_code
    (join newline [txt "function f() {"; txt "  return 1;"; txt "}"])
    [txt "f"]
  = join newline [txt "  return 1;"; txt "}"].
Proof. vm_compute. reflexivity. Qed.

(** C6.  With the empty unused set both removers give back the text. *)
Theorem no_op_on_empty_set (text : str) :
  remove_unused_css_rules text [] = text
  /\ remove_unused_js_code text [] = text.
Proof. split; reflexivity. Qed.


(** C8.  In a run that starts with an empty change log and lists no CSS
    file twice, every record has [bytes_saved] equal to [original_size]
    minus [new_size], and these two are the length of the text the file
    had before the run and the length of the text that the remover for
    the record's type makes of it with the record's unused names. *)
Theorem bytes_saved_accounting (st : state) (r : change) :
  changes_log st = [] ->
  NoDup (css_files st) ->
  In r (changes_log (process_files st)) ->
  let before := read_file_safe st (file r) in
  let after := remover_of (type_ r) before (unused_items r) in
  bytes_saved r = (original_size r - new_size r)%Z
  /\ original_size r = len before
  /\ new_size r = len after
  /\ (original_size r - new_size r = len before - len after)%Z.
Proof.
  intros Hlog Hnd Hin before after.
  assert (Hall : Forall (fun r => accounted (read_file_safe st (file r)) r)
                        (changes_log (process_files st))).
  { rewrite process_files_unfold. apply js_fold_accounted.
    - intros q text. apply js_contents_value.
    - apply css_fold_accounted; auto. rewrite Hlog. constructor. }
  rewrite Forall_forall in Hall. destruct (Hall r Hin) as [Ho [Hn Hb]].
  fold before in Ho, Hn, Hb. fold after in Hn, Hb.
  rewrite Ho, Hn, Hb. auto.
Qed.

Lemma bytes_saved_accounting_witness :
  bytes_saved
    (Change [] (txt "a.js") (txt "JavaScript") [txt "a"] 21 10 11)
  = (original_size
       (Change [] (txt "a.js") (txt "JavaScript") [txt "a"] 21 10 11)
     - new_size
         (Change [] (txt "a.js") (txt "JavaScript") [txt "a"] 21 10 11))%Z.
Proof.
  apply (@bytes_saved_accounting
           (fresh [] [(txt "a.js",
                       join newline [txt "var a = b;"; txt "var b = 1;"])] [])
           (Change [] (txt "a.js") (txt "JavaScript") [txt "a"] 21 10 11)).
  - reflexivity.
  - constructor.
  - vm_compute. left. reflexivity.
Defined.

(** [log_changes] itself: the record it appends. *)
Lemma log_changes_record (st : state) (p ty : str) (unused : strset)
    (original new : Z) :
  exists r,
    changes_log (log_changes st p ty unused original new)
    = changes_log st ++ [r]
    /\ file r = p /\ type_ r = ty /\ unused_items r = unused
    /\ original_size r = original /\ new_size r = new
    /\ bytes_saved r = (original - new)%Z.
Proof. eexists. cbn. repeat split. Qed.

(** A file that no encoding decodes is read as the empty text. *)
Lemma unreadable_reads_empty (st : state) (p : path) :
  files st p = None -> read_file_safe st p = [].
Proof. unfold read_file_safe. now intros ->. Qed.

(** C9.  A file that reads as the empty text is skipped: its turn of the
    CSS loop and its turn of the JS loop return the state as it is (no
    extraction, no removal, no record, no write), and after the whole
    run the file is as it was, no record of the run names it and no write
    of the run went to it. *)
Theorem empty_file_is_skipped (st : state) (p : path) :
  read_file_safe st p = [] ->
  (forall all, process_css_file all st p = st)
  /\ (forall all all' st',
         process_js_file all (fst (read_js st all')) st' p = st')
  /\ let st' := process_files st in
     files st' p = files st p
     /\ (forall r, In r (changes_log st') -> file r = p ->
                   In r (changes_log st))
     /\ (forall w, In w (writes st') -> fst w = p -> In w (writes st)).
Proof.
  intros Hread.
  assert (Hdict : forall all' text,
             dict_get p (fst (read_js st all')) = Some text -> text = []).
  { intros all' text Hget. apply js_contents_value in Hget. congruence. }
  split; [|split].
  - intros all. unfold process_css_file. now rewrite Hread.
  - intros all all' st'. unfold process_js_file.
    destruct (dict_get p (fst (read_js st all'))) as [text|] eqn:Hget;
      [|reflexivity].
    now rewrite (Hdict all' text Hget).
  - cbv zeta. rewrite process_files_unfold.
    set (st1 := fold_left (process_css_file (corpus st)) (css_files st) st).
    destruct (@css_fold_keeps (corpus st) p (css_files st) st Hread)
      as [Hf [Hl Hw]].
    destruct (@js_fold_keeps (corpus st) (fst (read_js st (read_html st))) p
                (js_files st1) (Hdict (read_html st)) st1)
      as [Hf' [Hl' Hw']].
    fold st1 in Hf, Hl, Hw. cbv zeta in Hf', Hl', Hw'.
    split; [|split].
    + now rewrite Hf'.
    + intros r Hin Hfile. auto.
    + intros w Hin Hfst. auto.
Qed.

Lemma empty_file_is_skipped_witness :
  files
    (process_files
       (fresh [] [(txt "a.js", txt "var a = 1;")] [(txt "e.css", [])]))
    (txt "e.css")
  = files (fresh [] [(txt "a.js", txt "var a = 1;")] [(txt "e.css", [])])
          (txt "e.css").
Proof.
  apply (@empty_file_is_skipped
           (fresh [] [(txt "a.js", txt "var a = 1;")] [(txt "e.css", [])])
           (txt "e.css")).
  reflexivity.
Defined.

(** C10.  The output of either remover is the join of a subsequence of
    the lines of its input, so it is not longer than the input; and in a
    run that starts with an empty change log every record has
    [new_size] at most [original_size] and a [bytes_saved] that is not
    negative. *)
Theorem lines_are_only_deleted :
  (forall text unused,
      exists kept,
        subseq kept (split newline text)
        /\ remove_unused_css_rules text unused = join newline kept)
  /\ (forall text unused,
         exists kept,
           subseq kept (split newline text)
           /\ remove_unused_js_code text unused = join newline kept)
  /\ (forall text unused,
         (len (remove_unused_css_rules text unused) <= len text)%Z
         /\ (len (remove_unused_js_code text unused) <= len text)%Z)
  /\ (forall st r,
         changes_log st = [] ->
         In r (changes_log (process_files st)) ->
         (new_size r <= original_size r)%Z /\ (0 <= bytes_saved r)%Z).
Proof.
  split; [exact css_removal_subseq|].
  split; [exact js_removal_subseq|].
  split.
  - intros text unused. split;
      [apply css_removal_shorter | apply js_removal_shorter].
  - intros st r Hlog Hin.
    assert (Hall : Forall (fun r => (new_size r <= original_size r)%Z
                                    /\ (0 <= bytes_saved r)%Z)
                          (changes_log (process_files st))).
    { rewrite process_files_unfold.
      apply fold_saves; [intros; apply js_turn_is_edit|].
      apply fold_saves; [intros; apply css_turn_is_edit|].
      rewrite Hlog. constructor. }
    rewrite Forall_forall in Hall. now apply Hall.
Qed.

Lemma lines_are_only_deleted_witness :
  (new_size (Change [] (txt "a.js") (txt "JavaScript") [txt "a"] 21 10 11)
   <= original_size
        (Change [] (txt "a.js") (txt "JavaScript") [txt "a"] 21 10 11))%Z
  /\ (0 <= bytes_saved
             (Change [] (txt "a.js") (txt "JavaScript") [txt "a"] 21 10 11))%Z.
Proof.
  apply (proj2 (proj2 (proj2 lines_are_only_deleted))
           (fresh [] [(txt "a.js",
                       join newline [txt "var a = b;"; txt "var b = 1;"])] [])
           (Change [] (txt "a.js") (txt "JavaScript") [txt "a"] 21 10 11)).
  - reflexivity.
  - vm_compute. left. reflexivity.
Defined.

(** The scenario of C4 as a run: the file comes back as it is and
    nothing is logged. *)
Lemma js_scenario_run :
  let text := join newline [txt "function used(){}";
                            txt "function unused(){}"; txt "used();"] in
  let st := process_files (fresh [] [(txt "app.js", text)] []) in
  files st (txt "app.js") = Some text
  /\ changes_log st = []
  /\ writes st = [].
Proof. cbv zeta. repeat split; vm_compute; reflexivity. Qed.

End Properties.

Import Properties.

(** ** Where a match lies in the text *)

Module MatchFacts.

Lemma infix_refl (s : str) : infix s s.
Proof. exists [], []. now rewrite app_nil_r. Qed.

Lemma infix_trans (a b c : str) : infix a b -> infix b c -> infix a c.
Proof.
  intros [x [y ->]] [x' [y' ->]]. exists (x' ++ x), (y ++ y').
  now rewrite <- !app_assoc.
Qed.

Lemma infix_prefix (a b : str) : infix a (a ++ b).
Proof. now exists [], b. Qed.

Lemma infix_suffix (a b : str) : infix b (a ++ b).
Proof. exists a, []. now rewrite app_nil_r. Qed.

Lemma infix_step (m s : str) (c : ascii) : infix m s -> infix m (c :: s).
Proof. intros [a [b ->]]. now exists (c :: a), b. Qed.

Lemma startswith_iff (p s : str) :
  startswith p s = true <-> exists b, s = p ++ b.
Proof.
  revert s. induction p as [|a p IH]; intros s; cbn.
  - split; [intros _; now exists s | reflexivity].
  - destruct s as [|b s]; [split; [discriminate | intros [? ?]; discriminate]|].
    rewrite andb_true_iff, IH. split.
    + intros [Hab [t ->]]. apply Ascii.eqb_eq in Hab as ->. now exists t.
    + intros [t Ht]. injection Ht as -> ->. split; [apply Ascii.eqb_refl|].
      now exists t.
Qed.

(** [needle in hay] is true exactly when the needle occurs in the hay. *)
Lemma contains_iff (needle hay : str) :
  contains needle hay = true <-> infix needle hay.
Proof.
  induction hay as [|c hay IH].
  - cbn [contains]. rewrite orb_false_r, startswith_iff. split.
    + intros [b Hb]. now exists [], b.
    + intros [a [b Hb]]. destruct a; [now exists b|discriminate].
  - cbn [contains]. rewrite orb_true_iff, startswith_iff, IH. split.
    + intros [[b ->] | Hin]; [apply infix_prefix | now apply infix_step].
    + intros [a [b Hab]]. destruct a as [|x a].
      * left. now exists b.
      * right. injection Hab as -> ->. now exists a, b.
Qed.

Lemma contains_false_infix (needle m s : str) :
  infix m s -> contains needle s = false -> contains needle m = false.
Proof.
  intros Hms Hs. destruct (contains needle m) eqn:Hm; [|reflexivity].
  apply contains_iff in Hm. rewrite <- Hs. symmetry. apply contains_iff.
  now apply infix_trans with m.
Qed.

Lemma has_char_app (c : ascii) (a b : str) :
  has_char c (a ++ b) = (has_char c a || has_char c b)%bool.
Proof. unfold has_char. apply existsb_app. Qed.

Lemma has_char_false_infix (c : ascii) (m s : str) :
  infix m s -> has_char c s = false -> has_char c m = false.
Proof.
  intros [a [b ->]]. rewrite !has_char_app.
  intros H. apply orb_false_iff in H as [_ H].
  now apply orb_false_iff in H as [H _].
Qed.

(** A match stops on a suffix of the text it starts on. *)
Lemma eat_suffix (ok : ascii -> bool) (p q : cursor) :
  In q (eat ok p) -> exists x, ok x = true /\ snd p = x :: snd q.
Proof.
  unfold eat. destruct (snd p) as [|x rest] eqn:E; [contradiction|].
  destruct (ok x) eqn:Hok; [|contradiction].
  intros [<- | []]. now exists x.
Qed.

Lemma star_ends_suffix (greedy : bool) (step : cursor -> list cursor) :
  (forall p q, In q (step p) -> exists m, snd p = m ++ snd q) ->
  forall fuel p q,
    In q (star_ends greedy step fuel p) -> exists m, snd p = m ++ snd q.
Proof.
  intros Hstep. induction fuel as [|fuel IH]; intros p q Hin.
  - destruct Hin as [<- | []]. now exists [].
  - cbn [star_ends] in Hin.
    assert (Hmore : In q (flat_map
                            (fun q0 => if remaining q0 <? remaining p
                                       then star_ends greedy step fuel q0
                                       else []) (step p))
                    -> exists m, snd p = m ++ snd q).
    { intros H. apply in_flat_map in H as [m [Hm Hq]].
      destruct (remaining m <? remaining p); [|contradiction].
      destruct (Hstep p m Hm) as [a Ha]. destruct (IH m q Hq) as [b Hb].
      exists (a ++ b). now rewrite Ha, Hb, app_assoc. }
    destruct greedy.
    + apply in_app_or in Hin as [H | [<- | []]]; [auto | now exists []].
    + destruct Hin as [<- | H]; [now exists [] | auto].
Qed.

Lemma ends_suffix (f : flags) (r : regex) :
  forall p q, In q (ends f r p) -> exists m, snd p = m ++ snd q.
Proof.
  induction r as [| c | ok | | a IHa b IHb | a IHa b IHb | g a IHa | | | | a IHa];
    intros p q Hin; cbn [ends] in Hin.
  - destruct Hin as [<- | []]. now exists [].
  - apply eat_suffix in Hin as [x [_ Hx]]. now exists [x].
  - apply eat_suffix in Hin as [x [_ Hx]]. now exists [x].
  - apply eat_suffix in Hin as [x [_ Hx]]. now exists [x].
  - apply in_flat_map in Hin as [m [Hm Hq]].
    destruct (IHa p m Hm) as [x Hx]. destruct (IHb m q Hq) as [y Hy].
    exists (x ++ y). now rewrite Hx, Hy, app_assoc.
  - apply in_app_or in Hin as [H | H]; eauto.
  - eapply star_ends_suffix; eauto.
  - destruct (xorb _ _); [|contradiction].
    destruct Hin as [<- | []]. now exists [].
  - destruct (at_bol f p); [|contradiction].
    destruct Hin as [<- | []]. now exists [].
  - destruct (at_eol f p); [|contradiction].
    destruct Hin as [<- | []]. now exists [].
  - destruct (ends f a p); [|contradiction].
    destruct Hin as [<- | []]. now exists [].
Qed.

Lemma chr_matches_fold (f : flags) (c x : ascii) :
  chr_matches f c x = Ascii.eqb (fold_case f c) (fold_case f x).
Proof. unfold chr_matches, fold_case. now destruct (ignorecase f). Qed.

(** What a literal matches is the literal, up to the case folding of the
    flags. *)
Lemma ends_Lit_inv (f : flags) (w : str) :
  forall p q,
    In q (ends f (Lit w) p) ->
    exists m, snd p = m ++ snd q
              /\ map (fold_case f) m = map (fold_case f) w.
Proof.
  induction w as [|c w IH]; intros p q Hin.
  - destruct Hin as [<- | []]. now exists [].
  - cbn [Lit ends] in Hin. apply in_flat_map in Hin as [m [Hm Hq]].
    apply eat_suffix in Hm as [x [Hx Hp]].
    rewrite chr_matches_fold in Hx. apply Ascii.eqb_eq in Hx.
    destruct (IH m q Hq) as [t [Ht Hfold]].
    exists (x :: t). split.
    + now rewrite Hp, Ht.
    + cbn. now rewrite Hx, Hfold.
Qed.

Lemma ends_needs_lit (f : flags) (w : str) (r : regex) :
  needs_lit w r ->
  forall p q,
    In q (ends f r p) ->
    exists a m b, snd p = a ++ m ++ b
                  /\ map (fold_case f) m = map (fold_case f) w.
Proof.
  induction 1 as [| a b _ IH | a b _ IH]; intros p q Hin.
  - apply ends_Lit_inv in Hin as [m [Hp Hm]]. now exists [], m, (snd q).
  - cbn [ends] in Hin. apply in_flat_map in Hin as [m [Hm _]]. eauto.
  - cbn [ends] in Hin. apply in_flat_map in Hin as [m [Hm Hq]].
    destruct (ends_suffix f a p m Hm) as [x Hx].
    destruct (IH m q Hq) as [a' [m' [b' [Hs Hf]]]].
    exists (x ++ a'), m', b'. split; [|assumption].
    now rewrite Hx, Hs, <- app_assoc.
Qed.

(** What the scan reports: the text splits into what was skipped and the
    rest, and the match starts on the rest. *)
Lemma scan_inv (f : flags) (r : regex) (s : str) :
  forall prev skipped p q,
    scan f r prev s = Some (skipped, p, q) ->
    s = skipped ++ snd p /\ In q (ends f r p).
Proof.
  induction s as [|c s IH]; intros prev skipped p q; cbn [scan];
    unfold match_at.
  - destruct (ends _ _ _) as [|q0 l] eqn:E; cbn; [discriminate|].
    intros H. injection H as <- <- <-. rewrite E. split; [reflexivity|now left].
  - destruct (ends _ _ _) as [|q0 l] eqn:E; cbn.
    + destruct (scan f r (Some c) s) as [[[sk p0] q0]|] eqn:Hs; [|discriminate].
      intros H. injection H as <- <- <-.
      destruct (IH _ _ _ _ Hs) as [-> Hin]. now split.
    + intros H. injection H as <- <- <-. rewrite E.
      split; [reflexivity|now left].
Qed.

(** A pattern that needs a literal matches only a text in which the
    literal occurs, up to the case folding of the flags. *)
Lemma search_needs_lit (f : flags) (w : str) (r : regex) (s : str) :
  needs_lit w r ->
  search f r s = true ->
  exists m, infix m s /\ map (fold_case f) m = map (fold_case f) w.
Proof.
  intros Hneeds. unfold search.
  destruct (scan f r None s) as [[[skipped p] q]|] eqn:Hs; [|discriminate].
  intros _. apply scan_inv in Hs as [-> Hin].
  destruct (ends_needs_lit f Hneeds p q Hin) as [a [m [b [Hp Hm]]]].
  exists m. split; [|assumption].
  exists (skipped ++ a), b. now rewrite Hp, <- app_assoc.
Qed.

Lemma search_needs_lit_exact (w : str) (r : regex) (s : str) :
  needs_lit w r -> search no_flags r s = true -> contains w s = true.
Proof.
  intros Hneeds Hs.
  destruct (search_needs_lit no_flags s Hneeds Hs) as [m [Hin Hm]].
  unfold fold_case in Hm. cbn in Hm. rewrite !map_id in Hm. subst m.
  now apply contains_iff.
Qed.

Lemma infix_map (g : ascii -> ascii) (m s : str) :
  infix m s -> infix (map g m) (map g s).
Proof.
  intros [a [b ->]]. exists (map g a), (map g b). now rewrite !map_app.
Qed.

Lemma search_needs_lit_folded (w : str) (r : regex) (s : str) :
  needs_lit w r -> search IGNORECASE r s = true ->
  contains (lower_str w) (lower_str s) = true.
Proof.
  intros Hneeds Hs.
  destruct (search_needs_lit IGNORECASE s Hneeds Hs) as [m [Hin Hm]].
  assert (Hm' : map lower m = map lower w) by exact Hm.
  apply contains_iff. unfold lower_str. rewrite <- Hm'. now apply infix_map.
Qed.

End MatchFacts.

Import MatchFacts.

(** ** More on the reference scanners *)

Module ScannerMore.

Lemma call_pattern_needs (name : str) : needs_lit name (call_pattern name).
Proof. apply needs_right, needs_left, needs_here. Qed.

Lemma usage_pattern_needs (name : str) : needs_lit name (usage_pattern name).
Proof. apply needs_right, needs_left, needs_here. Qed.

Lemma attribute_pattern_needs (attr name : str) :
  needs_lit name (attribute_pattern attr name).
Proof. do 7 apply needs_right. apply needs_left, needs_here. Qed.

Lemma classlist_pattern_needs (name : str) :
  needs_lit name (classlist_pattern name).
Proof. do 6 apply needs_right. apply needs_left, needs_here. Qed.

Lemma quoted_pattern_needs (head : regex) (name : str) :
  needs_lit name (quoted_pattern head name).
Proof. do 2 apply needs_right. apply needs_left, needs_here. Qed.

Lemma id_patterns_need (name : str) (pattern : regex) :
  In pattern (id_patterns name) -> needs_lit name pattern.
Proof.
  intros [<- | [<- | [<- | []]]].
  - apply quoted_pattern_needs.
  - apply quoted_pattern_needs.
  - do 6 apply needs_right. apply needs_left, needs_here.
Qed.

Lemma class_patterns_need (name : str) (pattern : regex) :
  In pattern (class_patterns name) -> needs_lit name pattern.
Proof.
  intros [<- | [<- | [<- | []]]].
  - apply attribute_pattern_needs.
  - apply attribute_pattern_needs.
  - apply classlist_pattern_needs.
Qed.

Lemma selector_referenced_class (content name : str) :
  selector_referenced content ("."%char :: name)
  = existsb (fun pattern => search IGNORECASE pattern content)
            (class_patterns name).
Proof.
  unfold selector_referenced. cbn [txt list_ascii_of_string startswith].
  rewrite Ascii.eqb_refl. cbn [andb skipn]. apply try_patterns_found.
Qed.

Lemma selector_referenced_id (content name : str) :
  selector_referenced content ("#"%char :: name)
  = existsb (fun pattern => search IGNORECASE pattern content)
            (id_patterns name).
Proof.
  unfold selector_referenced. cbn [txt list_ascii_of_string startswith].
  replace (Ascii.eqb "." "#") with false by reflexivity.
  rewrite Ascii.eqb_refl. cbn [andb skipn]. apply try_patterns_found.
Qed.

(** An ID selector [#x] of the candidate set is in the referenced set
    exactly when the corpus matches, with case ignored, one of the three
    id patterns for [x]: the [id] attribute, the [getElementById] call,
    the [querySelector] call. *)
Theorem id_selector_referenced (content : str) (selectors : strset)
    (x : str) :
  In ("#"%char :: x) (find_references_in_content content selectors)
  <-> In ("#"%char :: x) selectors
      /\ exists pattern,
           In pattern (id_patterns x)
           /\ search IGNORECASE pattern content = true.
Proof.
  rewrite find_references_In, selector_referenced_id, existsb_exists.
  tauto.
Qed.

(** A candidate that starts with neither a dot nor a hash sign is never
    in the referenced set. *)
Lemma other_selector_not_referenced (content : str) (selectors : strset)
    (selector : str) :
  startswith (txt ".") selector = false ->
  startswith (txt "#") selector = false ->
  ~ In selector (find_references_in_content content selectors).
Proof.
  intros Hdot Hhash Hin. apply find_references_In in Hin as [_ Href].
  unfold selector_referenced in Href. now rewrite Hdot, Hhash in Href.
Qed.

(** A class or ID selector whose name does not occur in the corpus, with
    both in lower case, is not in the referenced set, so it is in the
    unused set when it is a candidate.  This is a statement about texts
    of code points below 256, the characters of this development: there
    [re.IGNORECASE] and [str.lower] fold the same pairs of characters,
    which they do not on all of Unicode. *)
Theorem absent_selector_is_unused (content : str) (selectors : strset)
    (mark : ascii) (name : str) :
  mark = "."%char \/ mark = "#"%char ->
  contains (lower_str name) (lower_str content) = false ->
  ~ In (mark :: name) (find_references_in_content content selectors)
  /\ (In (mark :: name) selectors ->
      In (mark :: name)
         (set_minus selectors (find_references_in_content content selectors))).
Proof.
  intros Hmark Habsent.
  assert (Hnot : ~ In (mark :: name)
                     (find_references_in_content content selectors)).
  { intros Hin. apply find_references_In in Hin as [_ Href].
    assert (Hex : exists pattern,
               needs_lit name pattern
               /\ search IGNORECASE pattern content = true).
    { destruct Hmark as [-> | ->].
      - rewrite selector_referenced_class in Href.
        apply existsb_exists in Href as [pattern [Hp Hs]].
        exists pattern. split; [now apply class_patterns_need | assumption].
      - rewrite selector_referenced_id in Href.
        apply existsb_exists in Href as [pattern [Hp Hs]].
        exists pattern. split; [now apply id_patterns_need | assumption]. }
    destruct Hex as [pattern [Hneeds Hs]].
    pose proof (@search_needs_lit_folded name pattern content Hneeds Hs).
    congruence. }
  split; [assumption|].
  intros Hin. unfold set_minus. apply set_diff_iff. now split.
Qed.

Lemma absent_selector_is_unused_witness :
  In (txt ".ghost")
     (set_minus [txt ".card"; txt ".ghost"]
        (find_references_in_content (txt "<div class='Card'>")
           [txt ".card"; txt ".ghost"])).
Proof.
  apply (@absent_selector_is_unused (txt "<div class='Card'>")
           [txt ".card"; txt ".ghost"] "."%char (txt "ghost")).
  - left. reflexivity.
  - reflexivity.
  - right. left. reflexivity.
Defined.

(** An identifier that does not occur in the corpus is not in the
    referenced set, so it is in the unused set when it is a candidate. *)
Theorem absent_identifier_is_unused (content : str) (identifiers : strset)
    (name : str) :
  contains name content = false ->
  ~ In name (find_js_references content identifiers)
  /\ (In name identifiers ->
      In name (set_minus identifiers (find_js_references content identifiers))).
Proof.
  intros Habsent.
  assert (Hnot : ~ In name (find_js_references content identifiers)).
  { intros Hin. apply find_js_references_In in Hin as [_ Href].
    unfold identifier_referenced in Href.
    rewrite try_patterns_found in Href.
    apply existsb_exists in Href as [pattern [Hp Hs]].
    assert (Hneeds : needs_lit name pattern).
    { destruct Hp as [<- | [<- | []]];
        [apply call_pattern_needs | apply usage_pattern_needs]. }
    pose proof (@search_needs_lit_exact name pattern content Hneeds Hs).
    congruence. }
  split; [assumption|].
  intros Hin. unfold set_minus. apply set_diff_iff. now split.
Qed.

Lemma absent_identifier_is_unused_witness :
  In (txt "helper")
     (set_minus [txt "main"; txt "helper"]
        (find_js_references (txt "function main(){}") [txt "main"; txt "helper"])).
Proof.
  apply (@absent_identifier_is_unused (txt "function main(){}")
           [txt "main"; txt "helper"] (txt "helper")).
  - reflexivity.
  - right. left. reflexivity.
Defined.

(** The referenced set and the unused set split the candidates: each
    candidate is in exactly one of them, and neither holds anything
    else.  This is so for the selectors and for the identifiers. *)
Theorem candidates_split (content : str) (candidates : strset) (x : str) :
  (In x candidates
   <-> In x (find_references_in_content content candidates)
       \/ In x (set_minus candidates
                  (find_references_in_content content candidates)))
  /\ ~ (In x (find_references_in_content content candidates)
        /\ In x (set_minus candidates
                   (find_references_in_content content candidates)))
  /\ (In x candidates
      <-> In x (find_js_references content candidates)
          \/ In x (set_minus candidates
                     (find_js_references content candidates)))
  /\ ~ (In x (find_js_references content candidates)
        /\ In x (set_minus candidates
                   (find_js_references content candidates))).
Proof.
  unfold set_minus.
  repeat split.
  - intros Hin.
    destruct (in_dec str_dec x (find_references_in_content content candidates));
      [now left | right; apply set_diff_iff; now split].
  - intros [H | H]; [now apply find_references_In in H|].
    now apply set_diff_iff in H.
  - intros [H1 H2]. apply set_diff_iff in H2. tauto.
  - intros Hin.
    destruct (in_dec str_dec x (find_js_references content candidates));
      [now left | right; apply set_diff_iff; now split].
  - intros [H | H]; [now apply find_js_references_In in H|].
    now apply set_diff_iff in H.
  - intros [H1 H2]. apply set_diff_iff in H2. tauto.
Qed.

End ScannerMore.

Import ScannerMore.

(** ** More on the JS line remover *)

Module JsMore.

Lemma split_pieces_no_sep (sep : ascii) (s : str) :
  Forall (fun piece => has_char sep piece = false) (split sep s).
Proof.
  induction s as [|c s IH]; cbn [split].
  - repeat constructor.
  - destruct (Ascii.eqb_spec c sep) as [->|Hne].
    + constructor; [reflexivity | assumption].
    + destruct (split sep s) as [|piece rest]; [repeat constructor|].
      * unfold has_char. cbn. rewrite (proj2 (Ascii.eqb_neq sep c)) by congruence.
        reflexivity.
      * inversion IH as [|? ? Hp Hrest]; subst. constructor; [|assumption].
        unfold has_char in *. cbn.
        rewrite (proj2 (Ascii.eqb_neq sep c)) by congruence. exact Hp.
Qed.

Lemma function_decl_needs (name : str) :
  needs_lit name (function_decl_pattern name).
Proof. do 4 apply needs_right. apply needs_left, needs_here. Qed.

Lemma var_decl_needs (name : str) : needs_lit name (var_decl_pattern name).
Proof. do 4 apply needs_right. apply needs_left, needs_here. Qed.

Lemma declaration_mentions_name (unused : strset) (line : str) :
  is_unused_declaration unused line = true -> covered unused line = true.
Proof.
  intros H. apply is_unused_declaration_iff in H as [name [Hin Hs]].
  unfold covered. apply existsb_exists. exists name. split; [assumption|].
  destruct Hs as [Hs | Hs].
  - exact (@search_needs_lit_exact name _ line (function_decl_needs name) Hs).
  - exact (@search_needs_lit_exact name _ line (var_decl_needs name) Hs).
Qed.

Lemma empty_line_is_no_declaration (unused : strset) :
  is_unused_declaration unused [] = false.
Proof.
  unfold is_unused_declaration. induction unused as [|name unused IH];
    [reflexivity|].
  cbn [existsb]. rewrite IH. reflexivity.
Qed.

Lemma split_join_lines (kept : list str) :
  kept <> [] ->
  Forall (fun piece => has_char newline piece = false) kept ->
  split newline (join newline kept) = kept.
Proof. intros. now apply split_join. Qed.

Lemma Forall_filter {A : Type} (P : A -> Prop) (keep : A -> bool)
    (l : list A) :
  Forall P l -> Forall P (filter keep l).
Proof.
  intros H. apply Forall_forall. intros x Hx.
  apply filter_In in Hx as [Hx _]. rewrite Forall_forall in H. auto.
Qed.

(** A line in which no unused name occurs is a line of the output of
    [remove_unused_js_code]. *)
Theorem js_keeps_line_without_unused_name (text : str) (unused : strset)
    (line : str) :
  In line (split newline text) ->
  covered unused line = false ->
  In line (split newline (remove_unused_js_code text unused)).
Proof.
  intros Hin Hfree. rewrite js_removal_lines.
  set (kept := filter (fun l => negb (is_unused_declaration unused l))
                      (split newline text)).
  assert (Hkept : In line kept).
  { apply filter_In. split; [assumption|].
    destruct (is_unused_declaration unused line) eqn:E; [|reflexivity].
    apply declaration_mentions_name in E. congruence. }
  rewrite split_join_lines; [assumption | | ].
  - intros E. now rewrite E in Hkept.
  - apply Forall_filter, split_pieces_no_sep.
Qed.

Lemma js_keeps_line_without_unused_name_witness :
  In (txt "  return 1;")
     (split newline
        (remove_unused_js_code
           (join newline [txt "function f() {"; txt "  return 1;"; txt "}"])
           [txt "f"])).
Proof.
  apply (@js_keeps_line_without_unused_name
           (join newline [txt "function f() {"; txt "  return 1;"; txt "}"])
           [txt "f"] (txt "  return 1;")).
  - right. left. reflexivity.
  - reflexivity.
Defined.

(** [remove_unused_js_code] with one unused set is idempotent. *)
Theorem js_removal_idempotent (text : str) (unused : strset) :
  remove_unused_js_code (remove_unused_js_code text unused) unused
  = remove_unused_js_code text unused.
Proof.
  rewrite (js_removal_lines text).
  set (keep := fun l => negb (is_unused_declaration unused l)).
  set (kept := filter keep (split newline text)).
  rewrite js_removal_lines. fold keep.
  destruct kept as [|l kept'] eqn:E.
  - cbn [join split filter]. unfold keep at 1.
    now rewrite empty_line_is_no_declaration.
  - rewrite split_join_lines.
    + rewrite <- E. unfold kept.
      f_equal. clear. induction (split newline text) as [|x l IH];
        [reflexivity|].
      cbn [filter]. destruct (keep x) eqn:K; cbn [filter].
      * now rewrite K, IH.
      * exact IH.
    + discriminate.
    + rewrite <- E. apply Forall_filter, split_pieces_no_sep.
Qed.

End JsMore.

Import JsMore.

(** ** The selector cleaner *)

Module Cleaner.

Lemma before_chr_prefix (c : ascii) (s : str) :
  exists rest, s = before_chr c s ++ rest.
Proof.
  induction s as [|x s [rest IH]]; [now exists []|].
  cbn. destruct (Ascii.eqb x c); [now exists (x :: s)|].
  exists rest. cbn. now rewrite <- IH.
Qed.

Lemma has_char_cons (c x : ascii) (s : str) :
  has_char c (x :: s) = (Ascii.eqb c x || has_char c s)%bool.
Proof. reflexivity. Qed.

Lemma before_chr_absent (c : ascii) (s : str) :
  has_char c s = false -> before_chr c s = s.
Proof.
  induction s as [|x s IH]; [reflexivity|].
  rewrite has_char_cons. cbn [before_chr]. rewrite (Ascii.eqb_sym x c).
  destruct (Ascii.eqb c x); cbn [orb]; [discriminate|].
  intros H. now rewrite IH.
Qed.

(** On a text without newlines the greedy run of the dot reaches the end
    first. *)
Lemma star_dot_head (step : cursor -> list cursor) (t : str) :
  (forall p, step p = eat (dot_matches no_flags) p) ->
  forall prev n,
    has_char newline t = false ->
    List.length t <= n ->
    exists prev' tl, star_ends true step n (prev, t) = (prev', []) :: tl.
Proof.
  intros Hstep. induction t as [|x t IH]; intros prev n Hnl Hlen.
  - destruct n; cbn [star_ends]; [now exists prev, []|].
    rewrite Hstep. cbn. now exists prev, [].
  - destruct n as [|n]; [cbn in Hlen; lia|].
    rewrite has_char_cons in Hnl. apply orb_false_iff in Hnl as [Hx Hnl].
    destruct (IH (Some x) n Hnl) as [prev' [tl Heq]]; [cbn in Hlen; lia|].
    cbn [star_ends]. rewrite Hstep. unfold eat. cbn [snd].
    unfold dot_matches. cbn [dotall no_flags orb].
    rewrite (Ascii.eqb_sym x newline), Hx. cbn [negb flat_map].
    unfold remaining at 1 2. cbn [snd List.length].
    replace (List.length t <? S (List.length t)) with true
      by (symmetry; apply Nat.ltb_lt; lia).
    exists prev', ((tl ++ []) ++ [(prev, x :: t)]).
    apply (f_equal (fun l => (l ++ []) ++ [(prev, x :: t)])) in Heq.
    exact Heq.
Qed.

Lemma colon_tail_at_colon (prev : option ascii) (t : str) :
  has_char newline t = false ->
  exists prev', match_at no_flags colon_tail (prev, ":"%char :: t)
                = Some (prev', []).
Proof.
  intros Hnl.
  destruct (@star_dot_head (ends no_flags Dot) t (fun p => eq_refl)
              (Some ":"%char) (List.length t) Hnl (le_n _))
    as [prev' [tl Heq]].
  exists prev'. unfold match_at, colon_tail.
  change (ends no_flags (Cat (Chr ":") (Cat (Star true Dot) Eol))
               (prev, ":"%char :: t))
    with (flat_map (ends no_flags (Cat (Star true Dot) Eol))
                   [(Some ":"%char, t)]).
  cbn [flat_map]. rewrite app_nil_r.
  change (ends no_flags (Cat (Star true Dot) Eol) (Some ":"%char, t))
    with (flat_map (ends no_flags Eol)
            (star_ends true (ends no_flags Dot) (List.length t)
                       (Some ":"%char, t))).
  rewrite Heq. reflexivity.
Qed.

Lemma colon_tail_elsewhere (prev : option ascii) (x : ascii) (t : str) :
  Ascii.eqb x ":" = false ->
  match_at no_flags colon_tail (prev, x :: t) = None.
Proof.
  intros Hx. unfold match_at, colon_tail. cbn [ends]. unfold eat.
  cbn [snd chr_matches ignorecase no_flags].
  now rewrite (Ascii.eqb_sym ":" x), Hx.
Qed.

Lemma scan_colon_tail (t : str) :
  forall prev,
    has_char newline t = false ->
    (has_char ":" t = false /\ scan no_flags colon_tail prev t = None)
    \/ exists p prev',
         scan no_flags colon_tail prev t
         = Some (before_chr ":" t, p, (prev', []))
         /\ 0 < remaining p.
Proof.
  induction t as [|x t IH]; intros prev Hnl.
  - left. split; reflexivity.
  - assert (Hnl' : has_char newline t = false).
    { rewrite has_char_cons in Hnl. now apply orb_false_iff in Hnl. }
    cbn [scan before_chr]. destruct (Ascii.eqb x ":") eqn:Hx.
    + apply Ascii.eqb_eq in Hx as ->.
      destruct (@colon_tail_at_colon prev t Hnl') as [prev' Hm].
      match goal with
      | |- context [match_at ?f ?r ?p] =>
          replace (match_at f r p) with (Some (prev', @nil ascii))
            by (symmetry; exact Hm)
      end.
      right. exists (prev, ":"%char :: t), prev'. split; [reflexivity|].
      cbn. lia.
    + match goal with
      | |- context [match_at ?f ?r ?p] =>
          replace (match_at f r p) with (@None cursor)
            by (symmetry; now apply colon_tail_elsewhere)
      end.
      destruct (IH (Some x) Hnl') as [[Hno ->] | [p [prev' [-> Hp]]]].
      * left. split; [|reflexivity]. rewrite has_char_cons.
        now rewrite (Ascii.eqb_sym ":" x), Hx.
      * right. now exists p, prev'.
Qed.

(** [re.sub(r':.*$', '', t)] on a text without newlines: the text before
    the first colon. *)
Lemma sub_colon_tail (t : str) :
  has_char newline t = false ->
  sub_empty no_flags colon_tail t = before_chr ":" t.
Proof.
  intros Hnl. unfold sub_empty. cbn [sub_empty_from].
  destruct (@scan_colon_tail t None Hnl) as [[Hno ->] | [p [prev' [-> Hp]]]].
  - symmetry. now apply before_chr_absent.
  - unfold remaining at 1. cbn [snd List.length fst].
    replace (0 <? remaining p) with true by (symmetry; now apply Nat.ltb_lt).
    destruct (List.length t); cbn; now rewrite app_nil_r.
Qed.

Lemma lstrip_suffix (s : str) : exists a, s = a ++ lstrip s.
Proof.
  induction s as [|c s [a IH]]; [now exists []|].
  cbn. destruct (is_space c); [|now exists []].
  exists (c :: a). cbn. now rewrite <- IH.
Qed.

Lemma strip_infix (s : str) : infix (strip s) s.
Proof.
  unfold strip, rstrip.
  destruct (lstrip_suffix s) as [a Ha].
  destruct (lstrip_suffix (rev (lstrip s))) as [b Hb].
  exists a, (rev b).
  rewrite Ha at 1. f_equal.
  rewrite <- (rev_involutive (lstrip s)) at 1. rewrite Hb at 1.
  now rewrite rev_app_distr.
Qed.

Lemma clean_selector_infix (sel : str) :
  has_char newline sel = false -> infix (clean_selector sel) sel.
Proof.
  intros Hnl.
  assert (Hstrip : has_char newline (strip sel) = false)
    by (eapply has_char_false_infix; [apply strip_infix | assumption]).
  unfold clean_selector. rewrite sub_colon_tail by assumption.
  apply infix_trans with (strip sel); [|apply strip_infix].
  destruct (before_chr_prefix ":" (strip sel)) as [rest Hrest].
  rewrite Hrest at 2. apply infix_prefix.
Qed.

(** The cleaned selector is the stripped selector up to its first colon,
    when the selector has no newline in it. *)
Theorem clean_selector_cuts_at_colon (sel : str) :
  has_char newline sel = false ->
  clean_selector sel = before_chr ":" (strip sel)
  /\ has_char ":" (clean_selector sel) = false
  /\ infix (clean_selector sel) sel.
Proof.
  intros Hnl.
  assert (Hstrip : has_char newline (strip sel) = false)
    by (eapply has_char_false_infix; [apply strip_infix | assumption]).
  unfold clean_selector. rewrite sub_colon_tail by assumption.
  split; [reflexivity|]. split.
  - clear. induction (strip sel) as [|x s IH]; [reflexivity|].
    cbn [before_chr]. destruct (Ascii.eqb x ":") eqn:Hx; [reflexivity|].
    rewrite has_char_cons. now rewrite (Ascii.eqb_sym ":" x), Hx.
  - apply infix_trans with (strip sel); [|apply strip_infix].
    destruct (before_chr_prefix ":" (strip sel)) as [rest Hrest].
    rewrite Hrest at 2. apply infix_prefix.
Qed.

Lemma clean_selector_cuts_at_colon_witness :
  clean_selector (txt "  a.btn:hover ") = before_chr ":" (strip (txt "  a.btn:hover ")).
Proof.
  apply (@clean_selector_cuts_at_colon (txt "  a.btn:hover ")).
  reflexivity.
Defined.

End Cleaner.

Import Cleaner.

(** ** More on the CSS block remover *)

Module CssMore.

Lemma split_head_prefix (sep : ascii) (s : str) :
  exists first rest b, split sep s = first :: rest /\ s = first ++ b.
Proof.
  induction s as [|c s [first [rest [b [Hs Hb]]]]].
  - now exists [], [], [].
  - cbn [split]. destruct (Ascii.eqb c sep).
    + now exists [], (split sep s), (c :: s).
    + rewrite Hs. exists (c :: first), rest, b. split; [reflexivity|].
      cbn. now rewrite <- Hb.
Qed.

(** Every piece of a split occurs in the text. *)
Lemma split_piece_infix (sep : ascii) (s : str) :
  forall piece, In piece (split sep s) -> infix piece s.
Proof.
  induction s as [|c s IH]; intros piece; cbn [split].
  - intros [<- | []]. apply infix_refl.
  - destruct (Ascii.eqb c sep).
    + intros [<- | Hin]; [now exists [], (c :: s) | apply infix_step; auto].
    + destruct (split_head_prefix sep s) as [first [rest [b [Hs Hb]]]].
      rewrite Hs in *. intros [<- | Hin].
      * exists [], b. cbn. now rewrite <- Hb.
      * apply infix_step, IH. now right.
Qed.

Lemma firstn_infix (n : nat) (s : str) : infix (firstn n s) s.
Proof.
  exists [], (skipn n s). cbn. symmetry. apply firstn_skipn.
Qed.

Lemma slice_to_infix (s : str) (k : Z) : infix (slice_to s k) s.
Proof. unfold slice_to. destruct (k <? 0)%Z; apply firstn_infix. Qed.

Lemma covered_false_infix (unused : strset) (m s : str) :
  infix m s -> covered unused s = false -> covered unused m = false.
Proof.
  intros Hms Hs. unfold covered in *.
  destruct (existsb (fun u => contains u m) unused) eqn:E; [|reflexivity].
  apply existsb_exists in E as [u [Hu Hm]].
  rewrite <- Hs. symmetry. apply existsb_exists. exists u. split; [assumption|].
  apply contains_iff. apply infix_trans with m; [|assumption].
  now apply contains_iff.
Qed.

Lemma rule_selectors_infix (line sel : str) :
  In sel (rule_selectors line) -> infix sel line.
Proof.
  unfold rule_selectors. intros Hin. apply in_map_iff in Hin as [piece [<- Hp]].
  apply infix_trans with piece; [apply strip_infix|].
  apply infix_trans with (slice_to line (find "{" line)).
  - now apply split_piece_infix in Hp.
  - apply slice_to_infix.
Qed.

Lemma rule_selectors_not_nil (line : str) : rule_selectors line <> [].
Proof.
  unfold rule_selectors. intros E. apply map_eq_nil in E.
  now apply split_not_nil in E.
Qed.

(** A rule on a line in which no unused name occurs has a used
    selector. *)
Lemma rule_without_unused_name_is_used (unused : strset) (line : str) :
  has_char newline line = false ->
  covered unused line = false ->
  has_used_selector unused (rule_selectors line) = true.
Proof.
  intros Hnl Hfree.
  pose proof (rule_selectors_not_nil line) as Hne.
  destruct (rule_selectors line) as [|sel rest] eqn:E; [congruence|].
  assert (Hsel : infix sel line).
  { apply rule_selectors_infix. rewrite E. now left. }
  cbn [has_used_selector].
  assert (Hclean : covered unused (clean_selector sel) = false).
  { apply covered_false_infix with line; [|assumption].
    apply infix_trans with sel; [|assumption].
    apply clean_selector_infix.
    eapply has_char_false_infix; eassumption. }
  now rewrite Hclean.
Qed.

Lemma css_emit_all (unused : strset) (lines : list str) :
  Forall (fun line => has_char newline line = false
                      /\ covered unused line = false) lines ->
  forall inside depth sels,
    (inside = true -> has_used_selector unused sels = true) ->
    css_emit unused (inside, depth, sels) lines = lines.
Proof.
  induction 1 as [|line rest [Hnl Hfree] _ IH]; intros inside depth sels Hinv;
    [reflexivity|].
  cbn [css_emit css_line].
  destruct (negb inside && has_char "{" line)%bool eqn:Hopen.
  - rewrite (rule_without_unused_name_is_used unused line Hnl Hfree).
    cbn [fst snd app]. f_equal. apply IH. intros _.
    now apply rule_without_unused_name_is_used.
  - destruct inside.
    + rewrite (Hinv eq_refl), Hfree.
      destruct (depth + balance line =? 0)%Z; cbn [fst snd app]; f_equal;
        apply IH; auto; discriminate.
    + cbn [fst snd app]. f_equal. apply IH. discriminate.
Qed.

(** A stylesheet in which no unused name occurs comes back as it is. *)
Theorem css_without_unused_names_unchanged (text : str) (unused : strset) :
  (forall name, In name unused -> contains name text = false) ->
  remove_unused_css_rules text unused = text.
Proof.
  intros Hfree. destruct unused as [|u unused]; [reflexivity|].
  rewrite css_removal_lines by discriminate.
  unfold outside. rewrite css_emit_all; [apply join_split | | discriminate].
  pose proof (split_pieces_no_sep newline text) as Hnl.
  rewrite Forall_forall in *. intros line Hin. split; [auto|].
  apply covered_false_infix with text; [now apply split_piece_infix in Hin|].
  unfold covered.
  destruct (existsb (fun name => contains name text) (u :: unused)) eqn:E;
    [|reflexivity].
  apply existsb_exists in E as [name [Hname Hc]].
  rewrite Hfree in Hc by assumption. discriminate.
Qed.

Lemma css_without_unused_names_unchanged_witness :
  remove_unused_css_rules
    (join newline [txt ".card {"; txt "  color: red;"; txt "}"]) [txt ".ghost"]
  = join newline [txt ".card {"; txt "  color: red;"; txt "}"].
Proof.
  apply css_without_unused_names_unchanged.
  intros name [<- | []]. reflexivity.
Defined.

Lemma css_emit_no_brace (unused : strset) (lines : list str) :
  Forall (fun line => has_char "{" line = false) lines ->
  forall depth sels, css_emit unused (false, depth, sels) lines = lines.
Proof.
  induction 1 as [|line rest Hb _ IH]; intros depth sels; [reflexivity|].
  cbn [css_emit css_line negb andb]. rewrite Hb. cbn [fst snd app].
  f_equal. apply IH.
Qed.

(** A text without an opening brace comes back as it is, whatever the
    unused set. *)
Theorem css_without_braces_unchanged (text : str) (unused : strset) :
  has_char "{" text = false ->
  remove_unused_css_rules text unused = text.
Proof.
  intros Hb. destruct unused as [|u unused]; [reflexivity|].
  rewrite css_removal_lines by discriminate.
  unfold outside. rewrite css_emit_no_brace; [apply join_split|].
  apply Forall_forall. intros line Hin.
  apply has_char_false_infix with text; [|assumption].
  now apply split_piece_infix in Hin.
Qed.

Lemma css_without_braces_unchanged_witness :
  remove_unused_css_rules
    (join newline [txt "@import url(a.css);"; txt "/* .a */"]) [txt ".a"]
  = join newline [txt "@import url(a.css);"; txt "/* .a */"].
Proof. apply css_without_braces_unchanged. reflexivity. Defined.

(** What the loop emits around lines [mid] that it meets outside any
    rule. *)
Lemma css_emit_around (unused : strset) (pre rest : list str) :
  in_rule (css_loop unused pre) = false ->
  css_emit unused outside (pre ++ rest)
  = new_lines (css_loop unused pre) ++ css_emit unused outside rest.
Proof.
  intros Hout.
  destruct (css_loop_view unused pre) as [Hpre Hmode].
  rewrite css_emit_app, <- Hmode, Hpre. f_equal.
  unfold mode_of. rewrite Hout. apply css_emit_outside.
Qed.

(** A rule on one line all of whose selectors are covered by unused
    names, met outside any rule, is removed, and the lines around it are
    treated as they are without it. *)
Theorem css_one_line_unused_rule_removed (unused : strset)
    (pre post : list str) (rule : str) :
  unused <> [] ->
  Forall no_newline (pre ++ rule :: post) ->
  in_rule (css_loop unused pre) = false ->
  has_char "{" rule = true ->
  balance rule = 0%Z ->
  has_used_selector unused (rule_selectors rule) = false ->
  remove_unused_css_rules (join newline (pre ++ rule :: post)) unused
  = join newline (new_lines (css_loop unused pre)
                  ++ new_lines (css_loop unused post)).
Proof.
  intros Hne Hlines Hout Hbrace Hbal Hused.
  rewrite css_removal_lines by assumption.
  rewrite split_join; [| destruct pre; discriminate | exact Hlines].
  rewrite css_emit_around by assumption. do 2 f_equal.
  unfold outside at 1. cbn [css_emit css_line negb andb].
  rewrite Hbrace, Hused, Hbal. cbn [Z.eqb fst snd app].
  destruct (css_loop_view unused post) as [-> _]. apply css_emit_outside.
Qed.

Lemma css_one_line_unused_rule_removed_witness :
  remove_unused_css_rules
    (join newline ([txt "/* cards */"]
                   ++ txt ".a:hover, p.a { color: red; }"
                   :: [txt ".b { color: blue; }"]))
    [txt ".a"]
  = join newline (new_lines (css_loop [txt ".a"] [txt "/* cards */"])
                  ++ new_lines (css_loop [txt ".a"] [txt ".b { color: blue; }"])).
Proof.
  apply (@css_one_line_unused_rule_removed [txt ".a"] [txt "/* cards */"]
           [txt ".b { color: blue; }"] (txt ".a:hover, p.a { color: red; }")).
  - discriminate.
  - repeat constructor.
  - reflexivity.
  - reflexivity.
  - reflexivity.
  - vm_compute. reflexivity.
Defined.

(** After a one-line rule that is kept the loop is still inside a rule
    with depth zero, so the next line with balanced braces is taken for
    the closing line of the kept rule: it is kept, whatever its
    selectors, and only then is the loop outside again. *)
Theorem css_line_after_kept_one_line_rule_is_kept (unused : strset)
    (pre post : list str) (rule next : str) :
  unused <> [] ->
  Forall no_newline (pre ++ rule :: next :: post) ->
  in_rule (css_loop unused pre) = false ->
  has_char "{" rule = true ->
  balance rule = 0%Z ->
  has_used_selector unused (rule_selectors rule) = true ->
  balance next = 0%Z ->
  remove_unused_css_rules (join newline (pre ++ rule :: next :: post)) unused
  = join newline (new_lines (css_loop unused pre)
                  ++ rule :: next :: new_lines (css_loop unused post)).
Proof.
  intros Hne Hlines Hout Hbrace Hbal Hused Hnext.
  rewrite css_removal_lines by assumption.
  rewrite split_join; [| destruct pre; discriminate | exact Hlines].
  rewrite css_emit_around by assumption. do 2 f_equal.
  unfold outside at 1. cbn [css_emit css_line negb andb].
  rewrite Hbrace, Hused. cbn [fst snd app css_line negb andb].
  rewrite Hbal, Hnext, Hused. cbn [Z.add Z.eqb fst snd app]. do 2 f_equal.
  destruct (css_loop_view unused post) as [-> _]. apply css_emit_outside.
Qed.

Lemma css_line_after_kept_one_line_rule_is_kept_witness :
  remove_unused_css_rules
    (join newline ([] ++ txt ".b { color: red; }"
                   :: txt ".a { color: blue; }" :: []))
    [txt ".a"]
  = join newline (new_lines (css_loop [txt ".a"] [])
                  ++ txt ".b { color: red; }" :: txt ".a { color: blue; }"
                  :: new_lines (css_loop [txt ".a"] [])).
Proof.
  apply (@css_line_after_kept_one_line_rule_is_kept [txt ".a"] [] []
           (txt ".b { color: red; }") (txt ".a { color: blue; }")).
  - discriminate.
  - repeat constructor.
  - reflexivity.
  - reflexivity.
  - reflexivity.
  - vm_compute. reflexivity.
  - reflexivity.
Defined.

End CssMore.

Import CssMore.

(** ** The extractors *)

Module Extractor.

Lemma set_update_In (items : list str) :
  forall (s : strset) (x : str),
    In x (set_update s items) <-> In x s \/ In x items.
Proof.
  unfold set_update. induction items as [|y items IH]; intros s x; cbn.
  - tauto.
  - rewrite IH, set_add_iff. intuition congruence.
Qed.

Lemma set_update_NoDup (items : list str) :
  forall s : strset, NoDup s -> NoDup (set_update s items).
Proof.
  unfold set_update. induction items as [|y items IH]; intros s Hs; cbn.
  - assumption.
  - apply IH. now apply set_add_nodup.
Qed.

(** A run of a class consumes characters of the class. *)
Lemma star_class_text (f : flags) (greedy : bool) (ok : ascii -> bool) :
  forall fuel p q,
    In q (star_ends greedy (ends f (Cls ok)) fuel p) ->
    exists w, snd p = w ++ snd q /\ forallb ok w = true.
Proof.
  induction fuel as [|fuel IH]; intros p q Hin.
  - destruct Hin as [<- | []]. now exists [].
  - cbn [star_ends] in Hin.
    assert (Hmore : In q (flat_map
                            (fun q0 => if remaining q0 <? remaining p
                                       then star_ends greedy (ends f (Cls ok))
                                                      fuel q0
                                       else []) (ends f (Cls ok) p))
                    -> exists w, snd p = w ++ snd q /\ forallb ok w = true).
    { intros H. apply in_flat_map in H as [m [Hm Hq]].
      destruct (remaining m <? remaining p); [|contradiction].
      cbn [ends] in Hm. apply eat_suffix in Hm as [x [Hx Hp]].
      destruct (IH m q Hq) as [w [Hw Hok]].
      exists (x :: w). split; [now rewrite Hp, Hw|].
      cbn. now rewrite Hx, Hok. }
    destruct greedy.
    + apply in_app_or in Hin as [H | [<- | []]]; [auto | now exists []].
    + destruct Hin as [<- | H]; [now exists [] | auto].
Qed.

Lemma matched_text (p q : cursor) (w : str) :
  snd p = w ++ snd q -> matched p q = w.
Proof.
  intros Hp. unfold matched, remaining. rewrite Hp, length_app.
  replace (List.length w + List.length (snd q) - List.length (snd q))
    with (List.length w) by lia.
  now rewrite firstn_app, Nat.sub_diag, firstn_all, firstn_O, app_nil_r.
Qed.

(** What the group of a name pattern captures: a first character of the
    first class, then characters of the second class. *)
Lemma name_group_text (f : flags) (start chr : ascii -> bool)
    (m q : cursor) :
  In q (ends f (Cat (Cls start) (Star true (Cls chr))) m) ->
  exists c rest,
    matched m q = c :: rest /\ start c = true /\ forallb chr rest = true.
Proof.
  intros Hin. cbn [ends] in Hin. apply in_flat_map in Hin as [p [Hp Hq]].
  apply eat_suffix in Hp as [c [Hc Hm]].
  cbn [ends] in Hq.
  destruct (star_class_text f true chr _ p q Hq) as [rest [Hrest Hok]].
  exists c, rest. split; [|now split].
  apply matched_text. now rewrite Hm, Hrest.
Qed.

Lemma scan_group_inv (f : flags) (pre grp : regex) (s : str) :
  forall prev m q,
    scan_group f pre grp prev s = Some (m, q) -> In q (ends f grp m).
Proof.
  assert (Hat : forall p m q,
             match_group_at f pre grp p = Some (m, q) -> In q (ends f grp m)).
  { intros p m q. unfold match_group_at.
    destruct (flat_map _ _) as [|mq l] eqn:E; cbn; [discriminate|].
    intros H. injection H as ->.
    assert (Hin : In (m, q)
                     (flat_map (fun m0 => map (pair m0) (ends f grp m0))
                               (ends f pre p)))
      by (rewrite E; now left).
    apply in_flat_map in Hin as [m0 [_ Hin]].
    apply in_map_iff in Hin as [q0 [Heq Hin]]. now injection Heq as -> ->. }
  induction s as [|c s IH]; intros prev m q; cbn [scan_group].
  - destruct (match_group_at f pre grp _) as [mq|] eqn:E; [|discriminate].
    intros H. injection H as ->. eauto.
  - destruct (match_group_at f pre grp _) as [mq|] eqn:E.
    + intros H. injection H as ->. eauto.
    + apply IH.
Qed.

Lemma findall_group_inv (f : flags) (pre grp : regex) :
  forall fuel prev s w,
    In w (findall_group_from fuel f pre grp prev s) ->
    exists m q, In q (ends f grp m) /\ w = matched m q.
Proof.
  induction fuel as [|fuel IH]; intros prev s w; cbn [findall_group_from];
    [contradiction|].
  destruct (scan_group f pre grp prev s) as [[m q]|] eqn:E; [|contradiction].
  intros [<- | Hin].
  - exists m, q. split; [|reflexivity]. eapply scan_group_inv; eassumption.
  - destruct (remaining q <? List.length s); [eauto | contradiction].
Qed.

Lemma findall_names (f : flags) (pre : regex) (start chr : ascii -> bool)
    (s w : str) :
  In w (findall_group f pre (Cat (Cls start) (Star true (Cls chr))) s) ->
  exists c rest, w = c :: rest /\ start c = true /\ forallb chr rest = true.
Proof.
  intros Hin. apply findall_group_inv in Hin as [m [q [Hq ->]]].
  now apply name_group_text in Hq.
Qed.

(** Every selector that [get_css_selectors] returns is a dot or a hash
    sign followed by a name: a first character that is a letter, an
    underscore or a hyphen, then letters, digits, underscores and
    hyphens.  The result lists no selector twice. *)
Theorem extracted_selectors_shape (css_content : str) :
  NoDup (get_css_selectors css_content)
  /\ forall selector,
       In selector (get_css_selectors css_content) ->
       exists mark name,
         selector = mark :: name
         /\ (mark = "."%char \/ mark = "#"%char)
         /\ is_css_name name = true.
Proof.
  unfold get_css_selectors. split.
  - apply set_update_NoDup, set_update_NoDup. constructor.
  - intros selector Hin.
    apply set_update_In in Hin as [Hin | Hin];
      [apply set_update_In in Hin as [[] | Hin]|];
      apply in_map_iff in Hin as [name [<- Hname]];
      apply findall_names in Hname as [c [rest [-> [Hc Hrest]]]].
    + exists "."%char, (c :: rest). repeat split; auto.
      cbn. now rewrite Hc, Hrest.
    + exists "#"%char, (c :: rest). repeat split; auto.
      cbn. now rewrite Hc, Hrest.
Qed.

(** Every identifier that [get_js_identifiers] returns is a name: a
    first character that is a letter, an underscore or a dollar sign,
    then letters, digits, underscores and dollar signs.  The result
    lists no identifier twice. *)
Theorem extracted_identifiers_shape (js_content : str) :
  NoDup (get_js_identifiers js_content)
  /\ forall identifier,
       In identifier (get_js_identifiers js_content) ->
       is_js_name identifier = true.
Proof.
  unfold get_js_identifiers. split.
  - apply set_update_NoDup, set_update_NoDup. constructor.
  - intros identifier Hin.
    apply set_update_In in Hin as [Hin | Hin];
      [apply set_update_In in Hin as [[] | Hin]|];
      apply findall_names in Hin as [c [rest [-> [Hc Hrest]]]];
      cbn; now rewrite Hc, Hrest.
Qed.

End Extractor.

Import Extractor.

(** ** What a run touches *)

Module RunMore.

Lemma edit_files_unwritable (st : state) (p ty : str) (unused : strset)
    (before after : str) (q : path) :
  writable st p = false ->
  files (edit st p ty unused before after) q = files st q.
Proof. intros Hw. unfold edit, write_file. cbn. now rewrite Hw. Qed.

Lemma edit_files_written (st : state) (p ty : str) (unused : strset)
    (before after : str) :
  writable st p = true ->
  files (edit st p ty unused before after) p = Some after.
Proof.
  intros Hw. unfold edit, write_file. cbn. rewrite Hw. cbn.
  now destruct (str_dec p p).
Qed.

Lemma edit_keeps (st : state) (p ty : str) (unused : strset)
    (before after : str) (q : path) :
  q <> p \/ writable st p = false ->
  files (edit st p ty unused before after) q = files st q.
Proof.
  intros [Hne | Hw]; [now apply edit_files | now apply edit_files_unwritable].
Qed.

(** A loop whose turn for a path is an edit of that path, or nothing. *)
Lemma fold_touches (step : state -> path -> state) :
  (forall st p,
      step st p = st
      \/ exists ty u before after, step st p = edit st p ty u before after) ->
  forall l st,
    let st' := fold_left step l st in
    (html_files st' = html_files st /\ js_files st' = js_files st
     /\ css_files st' = css_files st /\ writable st' = writable st)
    /\ (forall q, ~ In q l \/ writable st q = false ->
                  files st' q = files st q)
    /\ (forall w, In w (writes st') ->
                  In w (writes st)
                  \/ (In (fst w) l /\ writable st (fst w) = true))
    /\ (forall r, In r (changes_log st') ->
                  In r (changes_log st) \/ In (file r) l)
    /\ ((forall w, In w (writes st) ->
                   exists r, In r (changes_log st) /\ file r = fst w
                             /\ new_size r = len (snd w)) ->
        forall w, In w (writes st') ->
                  exists r, In r (changes_log st') /\ file r = fst w
                            /\ new_size r = len (snd w)).
Proof.
  intros Hstep. induction l as [|p l IH]; intros st.
  - cbn. repeat split; auto.
  - cbn [fold_left].
    destruct (IH (step st p)) as [[Hh [Hj [Hc Hw]]] [Hf [Hwr [Hlog Hpair]]]].
    cbv zeta in *.
    destruct (Hstep st p) as [E | [ty [u [before [after E]]]]]; rewrite E in *.
    + repeat split; auto.
      * intros q Hq. apply Hf. destruct Hq as [Hq | Hq]; [left | now right].
        intros Hin. apply Hq. now right.
      * intros w Hin. destruct (Hwr w Hin) as [H | [H1 H2]]; [now left|].
        right. split; [now right | assumption].
      * intros r Hin. destruct (Hlog r Hin) as [H | H]; [now left|].
        right. now right.
    + destruct (edit_setup st p ty u before after) as [Eh [Ej [Ec Ew]]].
      cbv zeta in Eh, Ej, Ec, Ew.
      repeat split; try congruence.
      * intros q Hq. rewrite Hf.
        -- apply edit_keeps. destruct Hq as [Hq | Hq]; [left | ].
           ++ intros ->. apply Hq. now left.
           ++ destruct (str_dec q p) as [-> | Hne]; [now right | now left].
        -- rewrite Ew. destruct Hq as [Hq | Hq]; [left | now right].
           intros Hin. apply Hq. now right.
      * intros w Hin. destruct (Hwr w Hin) as [H | [H1 H2]].
        -- rewrite edit_writes in H. apply in_app_or in H as [H | H];
             [now left|].
           destruct (writable st p) eqn:Hwp; [|contradiction].
           destruct H as [<- | []]. right. split; [now left | assumption].
        -- right. split; [now right | congruence].
      * intros r Hin. destruct (Hlog r Hin) as [H | H]; [|right; now right].
        rewrite edit_log in H. apply in_app_or in H as [H | [<- | []]];
          [now left | right; now left].
      * intros Hinit. apply Hpair. intros w Hin.
        rewrite edit_writes in Hin. rewrite edit_log.
        apply in_app_or in Hin as [Hin | Hin].
        -- destruct (Hinit w Hin) as [r [Hr Hrest]]. exists r.
           split; [apply in_or_app; now left | assumption].
        -- destruct (writable st p); [|contradiction].
           destruct Hin as [<- | []].
           eexists. split; [apply in_or_app; right; now left|].
           cbn. split; reflexivity.
Qed.

Lemma css_turn_touches (all : str) (st : state) (p : path) :
  process_css_file all st p = st
  \/ exists ty u before after,
       process_css_file all st p = edit st p ty u before after.
Proof.
  destruct (process_css_file_cases all st p) as [H | [u [_ [_ H]]]];
    [now left | right; eauto].
Qed.

Lemma js_turn_touches (all : str) (d : dict) (st : state) (p : path) :
  process_js_file all d st p = st
  \/ exists ty u before after,
       process_js_file all d st p = edit st p ty u before after.
Proof.
  destruct (process_js_file_cases all d st p)
    as [H | [u [before [_ [_ [_ H]]]]]]; [now left | right; eauto].
Qed.

(** A run leaves the three file lists as they are, writes only to the
    listed CSS and JS files that can be written, leaves every other file
    (and so every HTML file that is not also listed as CSS or JS) as it
    was, and logs records for listed CSS and JS files only. *)
Theorem run_touches_only_listed_files (st : state) :
  let st' := process_files st in
  (html_files st' = html_files st /\ js_files st' = js_files st
   /\ css_files st' = css_files st)
  /\ (forall q, ~ In q (css_files st ++ js_files st) \/ writable st q = false ->
                files st' q = files st q)
  /\ (forall w, In w (writes st') ->
                In w (writes st)
                \/ (In (fst w) (css_files st ++ js_files st)
                    /\ writable st (fst w) = true))
  /\ (forall r, In r (changes_log st') ->
                In r (changes_log st)
                \/ In (file r) (css_files st ++ js_files st)).
Proof.
  cbv zeta. rewrite process_files_unfold.
  set (st1 := fold_left (process_css_file (corpus st)) (css_files st) st).
  destruct (fold_touches (process_css_file (corpus st))
              (css_turn_touches (corpus st)) (css_files st) st)
    as [[Hh [Hj [Hc Hw]]] [Hf [Hwr [Hlog _]]]].
  destruct (fold_touches
              (process_js_file (corpus st) (fst (read_js st (read_html st))))
              (js_turn_touches (corpus st) (fst (read_js st (read_html st))))
              (js_files st1) st1)
    as [[Hh' [Hj' [Hc' Hw']]] [Hf' [Hwr' [Hlog' _]]]].
  fold st1 in Hh, Hj, Hc, Hw, Hf, Hwr, Hlog. cbv zeta in *.
  repeat split; try congruence.
  - intros q Hq. rewrite Hf', Hf.
    + reflexivity.
    + destruct Hq as [Hq | Hq]; [left | now right].
      intros Hin. apply Hq, in_or_app. now left.
    + rewrite Hw, Hj. destruct Hq as [Hq | Hq]; [left | now right].
      intros Hin. apply Hq, in_or_app. now right.
  - intros w Hin. destruct (Hwr' w Hin) as [H | [H1 H2]].
    + destruct (Hwr w H) as [H' | [H1 H2]]; [now left|].
      right. split; [apply in_or_app; now left | assumption].
    + right. split; [apply in_or_app; right; congruence | congruence].
  - intros r Hin. destruct (Hlog' r Hin) as [H | H].
    + destruct (Hlog r H) as [H' | H']; [now left|].
      right. apply in_or_app. now left.
    + right. apply in_or_app. right. congruence.
Qed.

Lemma run_touches_only_listed_files_witness :
  files (process_files
           (fresh [(txt "index.html", txt "<p>var a = 1;</p>")]
                  [(txt "a.js", txt "var a = 1;")] []))
        (txt "index.html")
  = files (fresh [(txt "index.html", txt "<p>var a = 1;</p>")]
                 [(txt "a.js", txt "var a = 1;")] [])
          (txt "index.html").
Proof.
  apply (@run_touches_only_listed_files
           (fresh [(txt "index.html", txt "<p>var a = 1;</p>")]
                  [(txt "a.js", txt "var a = 1;")] [])).
  left. vm_compute. intros [H | []]. discriminate.
Defined.

(** Every write of a run is logged: for each text written to a file
    there is a record for that file whose new size is the length of the
    text. *)
Theorem every_write_is_logged (st : state) (w : path * str) :
  writes st = [] ->
  In w (writes (process_files st)) ->
  exists r,
    In r (changes_log (process_files st))
    /\ file r = fst w /\ new_size r = len (snd w).
Proof.
  intros Hinit Hin. rewrite process_files_unfold in *.
  set (st1 := fold_left (process_css_file (corpus st)) (css_files st) st) in *.
  destruct (fold_touches (process_css_file (corpus st))
              (css_turn_touches (corpus st)) (css_files st) st)
    as [_ [_ [_ [_ Hpair]]]].
  destruct (fold_touches
              (process_js_file (corpus st) (fst (read_js st (read_html st))))
              (js_turn_touches (corpus st) (fst (read_js st (read_html st))))
              (js_files st1) st1)
    as [_ [_ [_ [_ Hpair']]]].
  cbv zeta in *. fold st1 in Hpair. apply Hpair'; [|assumption].
  apply Hpair. rewrite Hinit. intros ? [].
Qed.

Lemma every_write_is_logged_witness :
  exists r,
    In r (changes_log
            (process_files (fresh [] [(txt "a.js", txt "var a = 1;")] [])))
    /\ file r = fst (txt "a.js", @nil ascii)
    /\ new_size r = len (snd (txt "a.js", @nil ascii)).
Proof.
  apply (@every_write_is_logged
           (fresh [] [(txt "a.js", txt "var a = 1;")] [])
           (txt "a.js", [])).
  - reflexivity.
  - vm_compute. left. reflexivity.
Defined.

End RunMore.

Import RunMore.

(** ** What a run leaves in each file *)

Module Outcome.

Lemma css_fold_frame (all : str) (l : list path) (st : state) (q : path) :
  ~ In q l ->
  files (fold_left (process_css_file all) l st) q = files st q.
Proof.
  intros Hq.
  destruct (fold_touches (process_css_file all) (css_turn_touches all) l st)
    as [_ [Hf _]].
  apply Hf. now left.
Qed.

Lemma js_fold_frame (all : str) (d : dict) (l : list path) (st : state)
    (q : path) :
  ~ In q l ->
  files (fold_left (process_js_file all d) l st) q = files st q.
Proof.
  intros Hq.
  destruct (fold_touches (process_js_file all d) (js_turn_touches all d) l st)
    as [_ [Hf _]].
  apply Hf. now left.
Qed.

Lemma css_turn_content (all : str) (st : state) (p : path) :
  writable st p = true ->
  files (process_css_file all st p) p
  = css_outcome all (read_file_safe st p) (files st p).
Proof.
  intros Hw. unfold process_css_file, css_outcome.
  destruct (read_file_safe st p) as [|c content]; [reflexivity|].
  cbn [is_empty]. destruct (set_minus _ _) as [|u unused]; [reflexivity|].
  cbn [is_empty]. unfold write_file, log_changes. cbn. rewrite Hw. cbn.
  now destruct (str_dec p p).
Qed.

Lemma js_turn_content (all : str) (d : dict) (st : state) (p : path)
    (content : str) :
  writable st p = true ->
  dict_get p d = Some content ->
  files (process_js_file all d st p) p = js_outcome all content (files st p).
Proof.
  intros Hw Hget. unfold process_js_file, js_outcome. rewrite Hget.
  destruct content as [|c content]; [reflexivity|].
  cbn [is_empty]. destruct (set_minus _ _) as [|u unused]; [reflexivity|].
  cbn [is_empty]. unfold write_file, log_changes. cbn. rewrite Hw. cbn.
  now destruct (str_dec p p).
Qed.

Lemma css_turn_elsewhere (all : str) (st : state) (q p : path) :
  q <> p ->
  files (process_css_file all st q) p = files st p
  /\ writable (process_css_file all st q) = writable st.
Proof.
  intros Hne.
  destruct (process_css_file_cases all st q) as [-> | [u [_ [_ ->]]]];
    [auto|].
  split; [apply edit_files; congruence | apply edit_setup].
Qed.

Lemma js_turn_elsewhere (all : str) (d : dict) (st : state) (q p : path) :
  q <> p ->
  files (process_js_file all d st q) p = files st p
  /\ writable (process_js_file all d st q) = writable st.
Proof.
  intros Hne.
  destruct (process_js_file_cases all d st q)
    as [-> | [u [before [_ [_ [_ ->]]]]]]; [auto|].
  split; [apply edit_files; congruence | apply edit_setup].
Qed.

Lemma css_fold_result (all : str) (p : path) (l : list path) :
  forall st,
    NoDup l -> In p l -> writable st p = true ->
    files (fold_left (process_css_file all) l st) p
    = css_outcome all (read_file_safe st p) (files st p).
Proof.
  induction l as [|q l IH]; intros st Hnd Hin Hw; [contradiction|].
  inversion Hnd as [|? ? Hnin Hnd']; subst. cbn [fold_left].
  destruct (str_dec q p) as [-> | Hne].
  - rewrite css_fold_frame by assumption. now apply css_turn_content.
  - destruct Hin as [-> | Hin]; [congruence|].
    destruct (css_turn_elsewhere all st Hne) as [Hf Hwq].
    rewrite IH by (try assumption; now rewrite Hwq).
    unfold read_file_safe. now rewrite Hf.
Qed.

Lemma js_fold_result (all : str) (d : dict) (p : path) (content : str)
    (l : list path) :
  dict_get p d = Some content ->
  forall st,
    NoDup l -> In p l -> writable st p = true ->
    files (fold_left (process_js_file all d) l st) p
    = js_outcome all content (files st p).
Proof.
  intros Hget. induction l as [|q l IH]; intros st Hnd Hin Hw; [contradiction|].
  inversion Hnd as [|? ? Hnin Hnd']; subst. cbn [fold_left].
  destruct (str_dec q p) as [-> | Hne].
  - rewrite js_fold_frame by assumption. now apply js_turn_content.
  - destruct Hin as [-> | Hin]; [congruence|].
    destruct (js_turn_elsewhere all d st Hne) as [Hf Hwq].
    rewrite IH by (try assumption; now rewrite Hwq).
    now rewrite Hf.
Qed.

(** After a run, a writable CSS file that is listed once, and not as a JS
    file, holds what [remove_unused_css_rules] makes of its text with the
    selectors of the file that the corpus of the run does not reference;
    it is as it was when its text is empty or no selector is unused. *)
Theorem css_file_after_run (st : state) (p : path) :
  NoDup (css_files st) ->
  In p (css_files st) ->
  ~ In p (js_files st) ->
  writable st p = true ->
  files (process_files st) p
  = if (is_empty (read_file_safe st p) || is_empty (css_unused st p))%bool
    then files st p
    else Some (remove_unused_css_rules (read_file_safe st p) (css_unused st p)).
Proof.
  intros Hnd Hin Hnj Hw. rewrite process_files_unfold.
  destruct (fold_touches (process_css_file (corpus st))
              (css_turn_touches (corpus st)) (css_files st) st)
    as [[_ [Hj _]] _].
  cbv zeta in Hj. rewrite js_fold_frame by now rewrite Hj.
  rewrite css_fold_result by assumption.
  unfold css_outcome, css_unused.
  destruct (read_file_safe st p); [reflexivity|]. cbn [is_empty orb].
  now destruct (set_minus _ _).
Qed.

Lemma css_file_after_run_witness :
  files (process_files
           (fresh [(txt "index.html", txt "<p class='b'>")] []
                  [(txt "a.css",
                    join newline [txt ".a { color: red; }";
                                  txt ".b { color: blue; }"])]))
        (txt "a.css")
  = Some (txt ".b { color: blue; }").
Proof.
  rewrite (@css_file_after_run
             (fresh [(txt "index.html", txt "<p class='b'>")] []
                    [(txt "a.css",
                      join newline [txt ".a { color: red; }";
                                    txt ".b { color: blue; }"])])
             (txt "a.css")).
  - vm_compute. reflexivity.
  - repeat constructor. intros [].
  - left. reflexivity.
  - intros [].
  - reflexivity.
Defined.

(** After a run, a writable JS file that is listed once, and not as a
    CSS file, holds what [remove_unused_js_code] makes of its text with
    the identifiers of the file that the corpus of the run does not
    reference; it is as it was when its text is empty or no identifier is
    unused. *)
Theorem js_file_after_run (st : state) (p : path) :
  NoDup (js_files st) ->
  In p (js_files st) ->
  ~ In p (css_files st) ->
  writable st p = true ->
  files (process_files st) p
  = if (is_empty (read_file_safe st p) || is_empty (js_unused st p))%bool
    then files st p
    else Some (remove_unused_js_code (read_file_safe st p) (js_unused st p)).
Proof.
  intros Hnd Hin Hnc Hw. rewrite process_files_unfold.
  destruct (fold_touches (process_css_file (corpus st))
              (css_turn_touches (corpus st)) (css_files st) st)
    as [[_ [Hj [_ Hwr]]] _].
  cbv zeta in Hj, Hwr. rewrite Hj.
  rewrite (@js_fold_result (corpus st) (fst (read_js st (read_html st))) p
             (read_file_safe st p)).
  - rewrite css_fold_frame by assumption.
    unfold js_outcome, js_unused.
    destruct (read_file_safe st p); [reflexivity|]. cbn [is_empty orb].
    now destruct (set_minus _ _).
  - now apply js_contents_get.
  - assumption.
  - assumption.
  - now rewrite Hwr.
Qed.

Lemma js_file_after_run_witness :
  files (process_files
           (fresh [] [(txt "a.js",
                       join newline [txt "var a = b;"; txt "var b = 1;"])] []))
        (txt "a.js")
  = Some (txt "var b = 1;").
Proof.
  rewrite (@js_file_after_run
             (fresh [] [(txt "a.js",
                         join newline [txt "var a = b;"; txt "var b = 1;"])] [])
             (txt "a.js")).
  - vm_compute. reflexivity.
  - repeat constructor. intros [].
  - left. reflexivity.
  - intros [].
  - reflexivity.
Defined.

End Outcome.

Import Outcome.

(** ** [scan_files], [run] and [save_log] *)

Module DriverFacts.

Lemma scan_step_rest (st : state) (e : entry) :
  changes_log (scan_step st e) = changes_log st
  /\ files (scan_step st e) = files st
  /\ writable (scan_step st e) = writable st
  /\ writes (scan_step st e) = writes st.
Proof.
  unfold scan_step, with_files.
  repeat match goal with
         | |- context [if ?b then _ else _] => destruct b
         end; cbn; auto.
Qed.

Lemma scan_files_rest (listing : list entry) :
  forall st,
    changes_log (scan_files listing st) = changes_log st
    /\ files (scan_files listing st) = files st
    /\ writable (scan_files listing st) = writable st
    /\ writes (scan_files listing st) = writes st.
Proof.
  unfold scan_files. induction listing as [|e listing IH]; intros st;
    [cbn; auto|].
  cbn [fold_left]. destruct (IH (scan_step st e)) as [H1 [H2 [H3 H4]]].
  destruct (scan_step_rest st e) as [G1 [G2 [G3 G4]]].
  repeat split; congruence.
Qed.

Lemma scan_step_lists (st : state) (e : entry) :
  js_files (scan_step st e) = js_files st ++ paths_of Js [e]
  /\ css_files (scan_step st e) = css_files st ++ paths_of Css [e]
  /\ html_files (scan_step st e) = html_files st ++ paths_of Html [e].
Proof.
  unfold scan_step, paths_of, kind_of, with_files. cbn [filter].
  destruct (entry_is_file e);
    [destruct (str_dec _ (txt ".js"));
     [|destruct (str_dec _ (txt ".css"));
       [|destruct (in_dec str_dec _ _)]]|];
    cbn; now rewrite ?app_nil_r.
Qed.

Lemma paths_of_cons (k : kind) (e : entry) (listing : list entry) :
  paths_of k (e :: listing) = paths_of k [e] ++ paths_of k listing.
Proof.
  unfold paths_of. cbn [filter].
  destruct (kind_eqb (kind_of e) k); reflexivity.
Qed.

Lemma scan_files_lists (listing : list entry) :
  forall st,
    js_files (scan_files listing st) = js_files st ++ paths_of Js listing
    /\ css_files (scan_files listing st) = css_files st ++ paths_of Css listing
    /\ html_files (scan_files listing st)
       = html_files st ++ paths_of Html listing.
Proof.
  unfold scan_files. induction listing as [|e listing IH]; intros st.
  - cbn. now rewrite !app_nil_r.
  - cbn [fold_left]. destruct (IH (scan_step st e)) as [Hj [Hc Hh]].
    destruct (scan_step_lists st e) as [Gj [Gc Gh]].
    rewrite Hj, Hc, Hh, Gj, Gc, Gh, !(paths_of_cons _ e listing).
    now rewrite <- !app_assoc.
Qed.

Lemma paths_of_In (k : kind) (listing : list entry) (p : path) :
  In p (paths_of k listing)
  <-> exists e, In e listing /\ entry_path e = p /\ kind_of e = k.
Proof.
  unfold paths_of. rewrite in_map_iff. split.
  - intros [e [Hp He]]. apply filter_In in He as [He Hk].
    exists e. repeat split; auto. destruct (kind_of e), k; now try discriminate.
  - intros [e [He [Hp Hk]]]. exists e. split; [assumption|].
    apply filter_In. split; [assumption|]. rewrite Hk. now destruct k.
Qed.

Lemma kind_of_suffix (e : entry) :
  (kind_of e = Js
   <-> entry_is_file e = true /\ lower_str (entry_suffix e) = txt ".js")
  /\ (kind_of e = Css
      <-> entry_is_file e = true /\ lower_str (entry_suffix e) = txt ".css")
  /\ (kind_of e = Html
      <-> entry_is_file e = true
          /\ (lower_str (entry_suffix e) = txt ".html"
              \/ lower_str (entry_suffix e) = txt ".htm")).
Proof.
  unfold kind_of. destruct (entry_is_file e).
  - destruct (str_dec _ (txt ".js")) as [Hj | Hj];
      [|destruct (str_dec _ (txt ".css")) as [Hc | Hc];
        [|destruct (in_dec str_dec _ _) as [Hh | Hh]]];
      try rewrite Hj; try rewrite Hc; cbn [In] in *;
      intuition (try discriminate; try congruence).
  - intuition discriminate.
Qed.

Lemma NoDup_paths_of (k : kind) (listing : list entry) :
  NoDup (map entry_path listing) -> NoDup (paths_of k listing).
Proof.
  unfold paths_of. induction listing as [|e listing IH]; intros Hnd;
    [constructor|].
  inversion Hnd as [|? ? Hnin Hnd']; subst. cbn [filter].
  destruct (kind_eqb (kind_of e) k); [|auto].
  cbn [map]. constructor; [|auto].
  intros Hin. apply Hnin. apply in_map_iff in Hin as [e' [Hp He']].
  apply filter_In in He' as [He' _]. apply in_map_iff. now exists e'.
Qed.

Lemma NoDup_path_entry (listing : list entry) (e e' : entry) :
  NoDup (map entry_path listing) ->
  In e listing -> In e' listing -> entry_path e = entry_path e' -> e = e'.
Proof.
  induction listing as [|x listing IH]; intros Hnd He He' Hp; [contradiction|].
  inversion Hnd as [|? ? Hnin Hnd']; subst.
  destruct He as [-> | He], He' as [-> | He']; auto.
  - exfalso. apply Hnin. apply in_map_iff. now exists e'.
  - exfalso. apply Hnin. apply in_map_iff. now exists e.
Qed.

Lemma kind_is_suffix (e : entry) :
  kind_eqb (kind_of e) Js = has_suffix [txt ".js"] e
  /\ kind_eqb (kind_of e) Css = has_suffix [txt ".css"] e
  /\ kind_eqb (kind_of e) Html = has_suffix [txt ".html"; txt ".htm"] e.
Proof.
  unfold kind_of, has_suffix. destruct (entry_is_file e); [|auto].
  cbn [andb].
  destruct (str_dec _ (txt ".js")) as [Hj | Hj];
    [|destruct (str_dec _ (txt ".css")) as [Hc | Hc];
      [|destruct (in_dec str_dec _ [txt ".html"; txt ".htm"]) as [Hh | Hh]]];
    try rewrite Hj; try rewrite Hc; repeat split; try reflexivity;
    match goal with
    | |- _ = (if ?d then _ else _) =>
        destruct d as [H | H]; cbn [In kind_eqb] in *; try reflexivity;
        exfalso; intuition (try discriminate; try congruence)
    end.
Qed.

Lemma paths_of_suffix (listing : list entry) :
  paths_of Js listing = map entry_path (filter (has_suffix [txt ".js"]) listing)
  /\ paths_of Css listing
     = map entry_path (filter (has_suffix [txt ".css"]) listing)
  /\ paths_of Html listing
     = map entry_path (filter (has_suffix [txt ".html"; txt ".htm"]) listing).
Proof.
  unfold paths_of. repeat split; f_equal; apply filter_ext; intros e;
    apply kind_is_suffix.
Qed.

(** [scan_files] appends to each of the three lists, in the order of the
    listing, the paths of the regular files whose suffix in lower case is
    [.js], [.css], or [.html] or [.htm], and changes nothing else.  On an
    object whose lists are empty and a listing that names no path twice,
    no list names a path twice and no path is on two lists. *)
Theorem scan_files_classifies (listing : list entry) (st : state) :
  let st' := scan_files listing st in
  (js_files st'
   = js_files st ++ map entry_path (filter (has_suffix [txt ".js"]) listing)
   /\ css_files st'
      = css_files st
        ++ map entry_path (filter (has_suffix [txt ".css"]) listing)
   /\ html_files st'
      = html_files st
        ++ map entry_path
             (filter (has_suffix [txt ".html"; txt ".htm"]) listing))
  /\ (forall p,
      (In p (js_files st')
       <-> In p (js_files st)
           \/ exists e, In e listing /\ entry_path e = p
                        /\ entry_is_file e = true
                        /\ lower_str (entry_suffix e) = txt ".js")
      /\ (In p (css_files st')
          <-> In p (css_files st)
              \/ exists e, In e listing /\ entry_path e = p
                           /\ entry_is_file e = true
                           /\ lower_str (entry_suffix e) = txt ".css")
      /\ (In p (html_files st')
          <-> In p (html_files st)
              \/ exists e, In e listing /\ entry_path e = p
                           /\ entry_is_file e = true
                           /\ (lower_str (entry_suffix e) = txt ".html"
                               \/ lower_str (entry_suffix e) = txt ".htm")))
  /\ (changes_log st' = changes_log st /\ files st' = files st
      /\ writable st' = writable st /\ writes st' = writes st)
  /\ (js_files st = [] -> css_files st = [] -> html_files st = [] ->
      NoDup (map entry_path listing) ->
      NoDup (js_files st') /\ NoDup (css_files st') /\ NoDup (html_files st')
      /\ forall p,
           ~ (In p (js_files st') /\ In p (css_files st'))
           /\ ~ (In p (js_files st') /\ In p (html_files st'))
           /\ ~ (In p (css_files st') /\ In p (html_files st'))).
Proof.
  cbv zeta. destruct (scan_files_lists listing st) as [Hj [Hc Hh]].
  destruct (paths_of_suffix listing) as [Sj [Sc Sh]].
  split; [rewrite Hj, Hc, Hh, Sj, Sc, Sh; auto|].
  rewrite Hj, Hc, Hh. split; [|split].
  - intros p. rewrite !in_app_iff, !paths_of_In.
    repeat split.
    + intros [H | [e [He [Hp Hk]]]]; [now left|].
      right. exists e. apply kind_of_suffix in Hk. tauto.
    + intros [H | [e [He [Hp Hk]]]]; [now left|].
      right. exists e. repeat split; auto. now apply kind_of_suffix.
    + intros [H | [e [He [Hp Hk]]]]; [now left|].
      right. exists e. apply kind_of_suffix in Hk. tauto.
    + intros [H | [e [He [Hp Hk]]]]; [now left|].
      right. exists e. repeat split; auto. now apply kind_of_suffix.
    + intros [H | [e [He [Hp Hk]]]]; [now left|].
      right. exists e. apply kind_of_suffix in Hk. tauto.
    + intros [H | [e [He [Hp Hk]]]]; [now left|].
      right. exists e. repeat split; auto. now apply kind_of_suffix.
  - apply scan_files_rest.
  - intros -> -> -> Hnd. cbn [app].
    assert (Hdisj : forall k k' p,
               k <> k' ->
               ~ (In p (paths_of k listing) /\ In p (paths_of k' listing))).
    { intros k k' p Hne [H1 H2].
      apply paths_of_In in H1 as [e [He [Hp Hk]]].
      apply paths_of_In in H2 as [e' [He' [Hp' Hk']]].
      assert (e = e') by (eapply NoDup_path_entry; eauto; congruence).
      congruence. }
    repeat split; try (now apply NoDup_paths_of); apply Hdisj; discriminate.
Qed.

Lemma scan_files_classifies_witness :
  NoDup (css_files
           (scan_files [Entry (txt "src/App.JS") true (txt ".JS");
                        Entry (txt "src/site.css") true (txt ".css");
                        Entry (txt "src") false [];
                        Entry (txt "index.htm") true (txt ".htm")]
                       (fresh [] [] []))).
Proof.
  apply (@scan_files_classifies
           [Entry (txt "src/App.JS") true (txt ".JS");
            Entry (txt "src/site.css") true (txt ".css");
            Entry (txt "src") false [];
            Entry (txt "index.htm") true (txt ".htm")]
           (fresh [] [] [])); try reflexivity.
  repeat constructor; cbn; intuition discriminate.
Defined.

End DriverFacts.

Import DriverFacts.

(** ** [run] and [save_log] *)

Module Report.

Lemma lower_is_y (c : ascii) :
  lower c = "y"%char -> c = "y"%char \/ c = "Y"%char.
Proof.
  destruct c as [[] [] [] [] [] [] [] []]; vm_compute; intros H;
    try discriminate; auto.
Qed.

(** The answers that let [run] go on are [y] and [Y]. *)
Lemma confirmed_iff (answer : str) :
  lower_str answer = txt "y" <-> answer = txt "y" \/ answer = txt "Y".
Proof.
  split.
  - destruct answer as [|c [|c' rest]]; try discriminate.
    intros H. injection H as H.
    destruct (lower_is_y c H) as [-> | ->]; auto.
  - intros [-> | ->]; reflexivity.
Qed.

(** [run] changes no file, writes nothing, logs nothing and writes no
    report when the root does not exist, when the scan finds no JS and no
    CSS file, or when the answer at the prompt is neither [y] nor [Y]. *)
Theorem run_changes_nothing_unless_confirmed (e : env) (st : state) :
  root_exists e = false
  \/ (js_files (scan_files (listing e) st) = []
      /\ css_files (scan_files (listing e) st) = [])
  \/ (response e <> txt "y" /\ response e <> txt "Y") ->
  snd (run e st) = None
  /\ files (fst (run e st)) = files st
  /\ writes (fst (run e st)) = writes st
  /\ changes_log (fst (run e st)) = changes_log st.
Proof.
  intros Hcase. unfold run.
  destruct (scan_files_rest (listing e) st) as [Hl [Hf [_ Hw]]].
  destruct (root_exists e); cbn [negb]; [|cbn; auto].
  destruct (is_empty (js_files (scan_files (listing e) st))
            && is_empty (css_files (scan_files (listing e) st)))%bool eqn:Hempty;
    [cbn; auto|].
  destruct (str_dec (lower_str (response e)) (txt "y")) as [Hy | Hy];
    [|cbn; auto].
  exfalso. destruct Hcase as [H | [[Hj Hc] | [H1 H2]]].
  - discriminate.
  - rewrite Hj, Hc in Hempty. discriminate.
  - apply confirmed_iff in Hy. tauto.
Qed.

Lemma run_changes_nothing_unless_confirmed_witness :
  snd (run (Env true [Entry (txt "a.js") true (txt ".js")] (txt "yes") [])
           (fresh [] [(txt "a.js", txt "var a = 1;")] []))
  = None.
Proof.
  apply (@run_changes_nothing_unless_confirmed
           (Env true [Entry (txt "a.js") true (txt ".js")] (txt "yes") [])
           (fresh [] [(txt "a.js", txt "var a = 1;")] [])).
  right. right. split; discriminate.
Defined.

(** One turn of the loop of [save_log] appends a text that depends on
    the record only, and adds the record's [bytes_saved]. *)
Lemma save_entry_appends (r : change) :
  exists chunk,
    forall out t,
      save_entry (out, t) r = (out ++ chunk, (t + bytes_saved r)%Z).
Proof.
  assert (Hitems : forall items,
             exists tail,
               forall o,
                 fold_left (fun o item => o ++ line (txt "  - " ++ item))
                           items o = o ++ tail).
  { induction items as [|item items [tail IHi]].
    - exists []. intros o. cbn. now rewrite app_nil_r.
    - exists (line (txt "  - " ++ item) ++ tail). intros o.
      cbn [fold_left]. now rewrite IHi, <- app_assoc. }
  destruct (Hitems (unused_items r)) as [tail Htail].
  eexists. intros out t. unfold save_entry. rewrite Htail.
  f_equal. rewrite <- !app_assoc. reflexivity.
Qed.

(** The loop of [save_log]: the text grows, the total adds up. *)
Lemma save_fold (log : list change) :
  forall out t,
    exists body,
      fold_left save_entry log (out, t)
      = (out ++ body, (t + total bytes_saved log)%Z).
Proof.
  induction log as [|r log IH]; intros out t.
  - exists []. cbn. now rewrite app_nil_r, Z.add_0_r.
  - destruct (save_entry_appends r) as [chunk Hc].
    destruct (IH (out ++ chunk) (t + bytes_saved r)%Z) as [body Hb].
    exists (chunk ++ body).
    change (fold_left save_entry (r :: log) (out, t))
      with (fold_left save_entry log (save_entry (out, t) r)).
    rewrite Hc. etransitivity; [exact Hb|]. f_equal.
    + now rewrite <- app_assoc.
    + cbn [total fold_right]. fold (total bytes_saved log). lia.
Qed.

Lemma fold_records (P : change -> Prop) (step : state -> path -> state) :
  (forall ts p ty u before,
      P (Change ts p ty u (len before) (len (remover_of ty before u))
                (len before - len (remover_of ty before u))%Z)) ->
  (forall st p,
      step st p = st
      \/ exists ty u before,
           step st p = edit st p ty u before (remover_of ty before u)) ->
  forall l st,
    Forall P (changes_log st) ->
    Forall P (changes_log (fold_left step l st)).
Proof.
  intros HP Hstep. induction l as [|p l IH]; intros st Hlog; [assumption|].
  cbn [fold_left].
  destruct (Hstep st p) as [-> | [ty [u [before ->]]]]; [now apply IH|].
  apply IH. rewrite edit_log. apply Forall_app. split; [assumption|].
  constructor; [apply HP | constructor].
Qed.

Lemma total_of_records (log : list change) :
  Forall (fun r => bytes_saved r = (original_size r - new_size r)%Z
                   /\ (0 <= bytes_saved r)%Z) log ->
  total bytes_saved log
  = (total original_size log - total new_size log)%Z
  /\ (0 <= total bytes_saved log)%Z.
Proof.
  induction 1 as [|r log [Heq Hpos] _ [IH1 IH2]]; cbn [total fold_right].
  - split; lia.
  - fold (total bytes_saved log) (total original_size log)
         (total new_size log). split; lia.
Qed.

(** The report ends with the summary: the number of records, and the sum
    of their [bytes_saved].  After a run that started with an empty log
    that sum is the sum of the original sizes minus the sum of the new
    sizes, and it is not negative. *)
Theorem save_log_summary (generated : str) (st : state) :
  (exists body,
      save_log generated st
      = save_header generated ++ body
        ++ line (txt "SUMMARY")
        ++ line (txt "Total files processed: "
                 ++ show_int (Z.of_nat (List.length (changes_log st))))
        ++ line (txt "Total bytes saved: "
                 ++ show_int (total bytes_saved (changes_log st))))
  /\ (changes_log st = [] ->
      total bytes_saved (changes_log (process_files st))
      = (total original_size (changes_log (process_files st))
         - total new_size (changes_log (process_files st)))%Z
      /\ (0 <= total bytes_saved (changes_log (process_files st)))%Z).
Proof.
  split.
  - unfold save_log.
    destruct (save_fold (changes_log st) (save_header generated) 0%Z)
      as [body Hbody].
    rewrite Hbody. exists body. cbn [Z.add]. now rewrite <- !app_assoc.
  - intros Hlog. apply total_of_records. rewrite process_files_unfold.
    apply fold_records; [| intros; apply js_turn_is_edit |].
    + intros. cbn. pose proof (remover_of_shorter ty before u). lia.
    + apply fold_records; [| intros; apply css_turn_is_edit |].
      * intros. cbn. pose proof (remover_of_shorter ty before u). lia.
      * rewrite Hlog. constructor.
Qed.

Lemma save_log_summary_witness :
  (0 <= total bytes_saved
          (changes_log
             (process_files
                (fresh [] [(txt "a.js",
                            join newline [txt "var a = b;"; txt "var b = 1;"])]
                       []))))%Z.
Proof.
  apply (proj2 (@save_log_summary []
                  (fresh [] [(txt "a.js",
                              join newline [txt "var a = b;"; txt "var b = 1;"])]
                         []))).
  reflexivity.
Defined.

(** The report of a run with one record, in full. *)
Example save_log_of_one_record :
  save_log (txt "2024-01-01 00:00:00")
           (process_files (fresh [] [(txt "a.js", txt "var a = 1;")] []))
  = join newline
      [txt "UNUSED CODE REMOVAL LOG";
       txt "==================================================";
       txt "Generated: 2024-01-01 00:00:00"; [];
       txt "File: a.js"; txt "Type: JavaScript"; txt "Timestamp: ";
       txt "Original size: 10 bytes"; txt "New size: 0 bytes";
       txt "Bytes saved: 10"; txt "Removed items:"; txt "  - a";
       txt "----------------------------------------"; [];
       txt "SUMMARY"; txt "Total files processed: 1";
       txt "Total bytes saved: 10"; []].
Proof. vm_compute. reflexivity. Qed.

End Report.

Import Report.

(** ** The corpus *)

Module Corpus.

Lemma gather_fold (read : path -> str) (l : list path) :
  forall acc,
    fold_left (fun all p => all ++ newline :: read p) l acc
    = acc ++ List.concat (map (fun p => newline :: read p) l).
Proof.
  induction l as [|p l IH]; intros acc; cbn [fold_left map List.concat].
  - now rewrite app_nil_r.
  - now rewrite IH, <- app_assoc.
Qed.

Lemma read_js_text (st : state) (l : list path) :
  forall acc : dict * str,
    snd (fold_left (fun acc js_file =>
                      let content := read_file_safe st js_file in
                      (dict_set js_file content (fst acc),
                       snd acc ++ newline :: content)) l acc)
    = snd acc ++ List.concat (map (fun p => newline :: read_file_safe st p) l).
Proof.
  induction l as [|p l IH]; intros acc; cbn [fold_left map List.concat].
  - now rewrite app_nil_r.
  - rewrite IH. cbn [snd]. now rewrite <- app_assoc.
Qed.

(** The corpus of a run is the texts of the HTML files and then of the JS
    files, in the order of the lists, each after a newline.  The CSS
    files are no part of it, and a file that cannot be decoded adds its
    newline only. *)
Theorem corpus_is_html_then_js (st : state) :
  corpus st
  = List.concat (map (fun p => newline :: read_file_safe st p)
                (html_files st ++ js_files st)).
Proof.
  unfold corpus, read_js, read_html.
  rewrite read_js_text. cbn [snd]. rewrite gather_fold. cbn [app].
  now rewrite map_app, List.concat_app.
Qed.

Lemma extracted_selectors_shape_witness :
  exists mark name,
    txt "#main-x" = mark :: name
    /\ (mark = "."%char \/ mark = "#"%char)
    /\ is_css_name name = true.
Proof.
  apply (proj2 (extracted_selectors_shape
                  (txt ".card.active #main-x { color: #fff; }"))).
  vm_compute. tauto.
Defined.

Lemma extracted_identifiers_shape_witness : is_js_name (txt "$m") = true.
Proof.
  apply (proj2 (extracted_identifiers_shape
                  (txt "function shown(){} let $m;"))).
  vm_compute. tauto.
Defined.

End Corpus.

Import Corpus.

(** ** The second run *)

Module SecondRun.

(** *** The removers applied once more, with fewer unused names *)









(** *** What a run leaves in a file *)








(** The CSS remover is not idempotent: a first pass can delete a line
    with an unmatched brace, and a line that it kept outside any rule is
    then a body line for the second pass.  So a second run can delete
    more from a stylesheet whose unused names are the same as in the
    first run. *)
Lemma css_second_pass_deletes_more :
  let st0 :=
    fresh [(txt "index.html", txt "<p class='b'>")] []
          [(txt "a.css",
            join newline [txt ".b { {"; txt " .a }"; txt "}"; txt ".a,";
                          txt ".b { x }"])] in
  let st1 := process_files st0 in
  let st2 := process_files st1 in
  css_unused st0 (txt "a.css") = [txt ".a"]
  /\ css_unused st1 (txt "a.css") = [txt ".a"]
  /\ files st1 (txt "a.css")
     = Some (join newline [txt ".b { {"; txt "}"; txt ".a,"; txt ".b { x }"])
  /\ files st2 (txt "a.css")
     = Some (join newline [txt ".b { {"; txt "}"; txt ".b { x }"]).
Proof. cbv zeta. repeat split; vm_compute; reflexivity. Qed.



End SecondRun.

Import SecondRun.
